(** * Navi command palette: intent classification, suggestion ranking,
      suggestion cursor and pending confirmations

    A shallow embedding of
      - [detectIntent]            (src/App.tsx),
      - the quit/switch suggestion builders and the keyboard handler
        (src/App.tsx),
      - [searchApps] and the [/confirm] endpoint (backend server),
    followed by the properties proved about them.

    Character model.  A JavaScript string is a sequence of UTF-16 code
    units.  The development works over the code units U+0000..U+00FF
    (type [ascii], read as Latin-1), on which [toLowerCase], [trim] and the
    regular-expression classes used by the program are closed and given
    below in full.  Numbers that the program only compares with literals or
    orders (confidences, scores) are exact rationals. *)

From Stdlib Require Import String Ascii QArith Lqa Sorted.
From stdpp Require Import base list strings gmap.

Set Default Proof Using "All".
Local Open Scope Z_scope.

(** ** Code units and strings *)

Abbreviation jsstring := (list ascii).

Definition str (s : string) : jsstring := list_ascii_of_string s.

Definition code (c : ascii) : Z := Z.of_N (N_of_ascii c).
Definition chr (n : Z) : ascii := ascii_of_N (Z.to_N n).

Definition inRange (lo hi : Z) (c : ascii) : bool :=
  (lo <=? code c) && (code c <=? hi).

(** [WhiteSpace] and [LineTerminator] of ECMAScript below U+0100:
    TAB, LF, VT, FF, CR, SP and NBSP.  This is both what [trim] strips and
    what [\s] matches. *)
Definition isWhiteSpace (c : ascii) : bool :=
  inRange 9 13 c || (code c =? 32) || (code c =? 160).

(** [\d] *)
Definition isDigit (c : ascii) : bool := inRange 48 57 c.

Definition isUpperAZ (c : ascii) : bool := inRange 65 90 c.
Definition isLowerAZ (c : ascii) : bool := inRange 97 122 c.

(** [\w] (without the [u] flag [i] does not change it) *)
Definition isWordChar (c : ascii) : bool :=
  isUpperAZ c || isLowerAZ c || isDigit c || (code c =? 95).

(** [String.prototype.toLowerCase] on one code unit: A-Z and the Latin-1
    capitals U+00C0..U+00DE (without the multiplication sign U+00D7) move
    up by 32, all other code units below U+0100 are their own lower case. *)
Definition lowerChar (c : ascii) : ascii :=
  if isUpperAZ c || (inRange 192 222 c && negb (code c =? 215))
  then chr (code c + 32) else c.

Definition toLowerCase (s : jsstring) : jsstring := map lowerChar s.

(** [Canonicalize] of a case-insensitive regular expression without the
    [u] flag: the upper case of the code unit when that is a single code
    unit and does not move a non-ASCII unit into ASCII.  Below U+0100 this
    maps a-z and U+00E0..U+00FE (without the division sign U+00F7) down by
    32; the upper cases of U+00B5, U+00DF and U+00FF lie outside the range
    or are longer, so those units only match themselves. *)
Definition Canonicalize (c : ascii) : ascii :=
  if isLowerAZ c || (inRange 224 254 c && negb (code c =? 247))
  then chr (code c - 32) else c.

Definition charEqb (a b : ascii) : bool := code a =? code b.

(** [c*] for a class [cls], greedy: the subject without its longest
    prefix of class members *)
Fixpoint skipClass (cls : ascii -> bool) (s : jsstring) : jsstring :=
  match s with
  | c :: s' => if cls c then skipClass cls s' else s
  | [] => []
  end.

Definition trimStart (s : jsstring) : jsstring := skipClass isWhiteSpace s.

Definition trimEnd (s : jsstring) : jsstring := rev (trimStart (rev s)).

Definition trim (s : jsstring) : jsstring := trimEnd (trimStart s).

Fixpoint strEqb (a b : jsstring) : bool :=
  match a, b with
  | [], [] => true
  | x :: a', y :: b' => charEqb x y && strEqb a' b'
  | _, _ => false
  end.

(** [s.startsWith(p)] *)
Fixpoint startsWith (s p : jsstring) {struct p} : bool :=
  match p, s with
  | [], _ => true
  | x :: p', y :: s' => charEqb x y && startsWith s' p'
  | _ :: _, [] => false
  end.

(** [s.includes(p)] *)
Fixpoint includes (s p : jsstring) : bool :=
  startsWith s p ||
  match s with
  | _ :: s' => includes s' p
  | [] => false
  end.

Definition endsWith (s p : jsstring) : bool := startsWith (rev s) (rev p).

(** ** Regular-expression fragments

    The patterns of the program are anchored literals, character classes
    and their repetitions; each is written as the function that decides it.
    A matcher returns the rest of the subject after the match. *)

(** a literal under the [i] flag, at the start of the subject *)
Fixpoint matchLitCI (p s : jsstring) : option jsstring :=
  match p, s with
  | [], _ => Some s
  | x :: p', y :: s' =>
      if charEqb (Canonicalize x) (Canonicalize y) then matchLitCI p' s'
      else None
  | _ :: _, [] => None
  end.

(** an alternation of literals [(p1|p2|...)] followed by the rest of the
    pattern [k]: alternatives are tried from the left, and the first one
    after which [k] succeeds decides the match *)
Fixpoint matchAltCI (ps : list jsstring) (k : jsstring -> option jsstring)
    (s : jsstring) : option jsstring :=
  match ps with
  | [] => None
  | p :: ps' =>
      match matchLitCI p s ≫= k with
      | Some r => Some r
      | None => matchAltCI ps' k s
      end
  end.

(** [\s*] and [\s+] at the end of a pattern *)
Definition wsStar (s : jsstring) : option jsstring :=
  Some (skipClass isWhiteSpace s).

Definition wsPlus (s : jsstring) : option jsstring :=
  match s with
  | c :: s' => if isWhiteSpace c then Some (skipClass isWhiteSpace s') else None
  | [] => None
  end.

(** [s.replace(/^(p1|p2|...)k/i, "")]: without the [g] flag the one match
    at the start is removed, and a subject without a match is returned
    as it is *)
Definition replacePrefix (ps : list jsstring)
    (k : jsstring -> option jsstring) (s : jsstring) : jsstring :=
  match matchAltCI ps k s with
  | Some r => r
  | None => s
  end.

Definition isSome {A} (o : option A) : bool :=
  match o with Some _ => true | None => false end.

(** ** The intent classifier ([detectIntent], src/App.tsx) *)

Inductive IntentType :=
  | Path | App | Calculate | Search | Chat | Quit | Switch | Recent | Url
  | Unknown.

Record Intent := mkIntent {
  type : IntentType;
  value : jsstring;
  confidence : Q
}.

(** the top-level domains listed in [urlPattern], in the order and with
    the repetitions of the source *)
Definition tlds : list jsstring := map str
  ["com"; "net"; "org"; "io"; "dev"; "co"; "edu"; "gov"; "mil"; "int"; "app";
   "xyz"; "tech"; "online"; "site"; "website"; "store"; "shop"; "blog";
   "info"; "biz"; "tv"; "me"; "us"; "uk"; "ca"; "au"; "de"; "fr"; "jp"; "cn";
   "in"; "br"; "ru"; "kr"; "es"; "it"; "nl"; "se"; "no"; "dk"; "fi"; "pl";
   "cz"; "hu"; "ro"; "gr"; "pt"; "ie"; "nz"; "za"; "mx"; "ar"; "cl"; "co";
   "pe"; "ve"; "ec"; "uy"; "py"; "bo"; "cr"; "pa"; "gt"; "hn"; "ni"; "sv";
   "bz"; "jm"; "tt"; "bb"; "gd"; "lc"; "vc"; "ag"; "dm"; "kn"; "bs"; "sr";
   "gy"; "gf"; "fk"; "ai"; "vg"; "ky"; "bm"; "tc"; "ms"; "aw"; "cw"; "sx";
   "bq"; "mf"; "bl"; "pm"; "wf"; "pf"; "nc"; "vu"; "fj"; "pg"; "sb"; "ki";
   "tv"; "nr"; "pw"; "fm"; "mh"; "as"; "gu"; "mp"; "vi"; "pr"; "do"; "ht";
   "cu"; "jm"; "bs"; "bb"; "gd"; "lc"; "vc"; "ag"; "dm"; "kn"; "ai"; "vg";
   "ky"; "bm"; "tc"; "ms"; "aw"; "cw"; "sx"; "bq"; "mf"; "bl"; "pm"; "wf";
   "pf"; "nc"; "vu"; "fj"; "pg"; "sb"; "ki"; "nr"; "pw"; "fm"; "mh"; "as";
   "gu"; "mp"; "vi"; "pr"; "do"; "ht"; "cu"]%string.

(** [[a-z0-9-]] under the [i] flag *)
Definition isDomainChar (c : ascii) : bool :=
  isLowerAZ c || isUpperAZ c || isDigit c || (code c =? 45).

(** [https?:\/\/] *)
Definition matchScheme (s : jsstring) : bool :=
  match matchLitCI (str "http") s with
  | Some r =>
      match matchLitCI (str "s") r with
      | Some r' => isSome (matchLitCI (str "://") r')
                   || isSome (matchLitCI (str "://") r)
      | None => isSome (matchLitCI (str "://") r)
      end
  | None => false
  end.

(** [[a-z0-9-]+\.(com|net|...)]: the dot is outside the class, so the run
    of class characters that the dot follows is the longest one *)
Definition matchDomain (s : jsstring) : bool :=
  match s with
  | c :: _ =>
      isDomainChar c &&
      match skipClass isDomainChar s with
      | d :: r => (code d =? 46) && isSome (matchAltCI tlds Some r)
      | [] => false
      end
  | [] => false
  end.

(** [urlPattern.test(s)] *)
Definition urlPattern (s : jsstring) : bool :=
  matchScheme s
  || isSome (matchLitCI (str "localhost") s)
  || isSome (matchLitCI (str "www.") s)
  || matchDomain s.

(** [/^localhost(:\d+)?/.test(s)]: case-sensitive, and the optional port
    never makes the match fail *)
Definition localhostPattern (s : jsstring) : bool :=
  startsWith s (str "localhost").

Definition isSeparator (c : ascii) : bool := (code c =? 92) || (code c =? 47).

(** [/^([A-Za-z]:[\\\/]|\\\\|\.\.?[\\\/]|[\\\/])/.test(s)] *)
Definition pathPattern (s : jsstring) : bool :=
  match s with
  | c1 :: c2 :: c3 :: _ =>
      ((isUpperAZ c1 || isLowerAZ c1) && (code c2 =? 58) && isSeparator c3)
      || ((code c1 =? 92) && (code c2 =? 92))
      || ((code c1 =? 46) && isSeparator c2)
      || ((code c1 =? 46) && (code c2 =? 46) && isSeparator c3)
      || isSeparator c1
  | [c1; c2] =>
      ((code c1 =? 92) && (code c2 =? 92))
      || ((code c1 =? 46) && isSeparator c2)
      || isSeparator c1
  | [c1] => isSeparator c1
  | [] => false
  end.

(** [[\d+\-*/().\s]] *)
Definition isMathChar (c : ascii) : bool :=
  isDigit c || (code c =? 43) || (code c =? 45) || (code c =? 42)
  || (code c =? 47) || (code c =? 40) || (code c =? 41) || (code c =? 46)
  || isWhiteSpace c.

(** [/^[\d+\-*/().\s]+$/.test(s)] *)
Definition mathPattern (s : jsstring) : bool :=
  match s with
  | [] => false
  | _ :: _ => forallb isMathChar s
  end.

(** [[\+\-\*\/\(\)]] *)
Definition isMathOp (c : ascii) : bool :=
  (code c =? 43) || (code c =? 45) || (code c =? 42) || (code c =? 47)
  || (code c =? 40) || (code c =? 41).

Definition searchKeywords : list jsstring :=
  map str ["search"; "find"; "lookup"; "google"; "bing"]%string.

(** [\b] between the code unit before the position ([None] at the start
    of the subject) and the one after it ([None] at its end) *)
Definition wordBoundary (before after : option ascii) : bool :=
  xorb (from_option isWordChar false before)
       (from_option isWordChar false after).

(** the rest of [\b(search|...)\b] after the alternation: the keyword's
    last code unit is a word character, so [\b] asks for a code unit after
    it that is none, or the end of the subject *)
Definition keywordEnd (r : jsstring) : option jsstring :=
  if wordBoundary (Some "a"%char) (head r) then Some r else None.

(** [/\b(search|find|lookup|google|bing)\b/i.test(s)], tried at every
    position from the left; [before] is the code unit before [s] *)
Fixpoint hasSearchKeywordsFrom (before : option ascii) (s : jsstring)
    : bool :=
  (wordBoundary before (head s)
   && isSome (matchAltCI searchKeywords keywordEnd s))
  || match s with
     | c :: s' => hasSearchKeywordsFrom (Some c) s'
     | [] => false
     end.

Definition hasSearchKeywords (s : jsstring) : bool :=
  hasSearchKeywordsFrom None s.

(** The conditions of the rules, on [trimmed = input.trim()] and
    [lower = trimmed.toLowerCase()], in the order of the source. *)

Definition isQuitCommand (lower : jsstring) : bool :=
  strEqb lower (str "quit") || startsWith lower (str "quit ").

Definition isSwitchCommand (lower : jsstring) : bool :=
  strEqb lower (str "sw") || startsWith lower (str "sw ")
  || strEqb lower (str "switch") || startsWith lower (str "switch ")
  || strEqb lower (str "focus") || startsWith lower (str "focus ").

Definition isRecentCommand (lower : jsstring) : bool :=
  strEqb lower (str "recent") || startsWith lower (str "recent ")
  || strEqb lower (str "recent files")
  || strEqb lower (str "recent folders").

Definition isUrl (trimmed : jsstring) : bool :=
  urlPattern trimmed || includes trimmed (str "://")
  || localhostPattern trimmed.

Definition isChatCommand (lower : jsstring) : bool :=
  startsWith lower (str "/chat") || startsWith lower (str "/ai").

Definition hasSeparator (trimmed : jsstring) : bool :=
  includes trimmed (str "\") || includes trimmed (str "/").

(** the two nested conditions of the path rule *)
Definition isPath (trimmed : jsstring) : bool :=
  (pathPattern trimmed || includes trimmed (str "\")
   || includes trimmed (str "/"))
  && ((2 <? Z.of_nat (length trimmed)) && hasSeparator trimmed).

Definition isCalculation (trimmed : jsstring) : bool :=
  mathPattern trimmed
  || (existsb isMathOp trimmed && existsb isDigit trimmed).

Definition isOpenCommand (lower : jsstring) : bool :=
  startsWith lower (str "open ") || startsWith lower (str "launch ")
  || startsWith lower (str "start ").

Definition detectIntent (input : jsstring) : Intent :=
  let trimmed := trim input in
  let lower := toLowerCase trimmed in
  if isQuitCommand lower then
    mkIntent Quit (trim (replacePrefix [str "quit"] wsStar trimmed)) 1.0
  else if isSwitchCommand lower then
    mkIntent Switch
      (trim (replacePrefix [str "sw"; str "switch"; str "focus"] wsStar
               trimmed)) 1.0
  else if isRecentCommand lower then
    mkIntent Recent (trim (replacePrefix [str "recent"] wsStar trimmed)) 1.0
  else if isUrl trimmed then
    mkIntent Url trimmed 0.95
  else if isChatCommand lower then
    mkIntent Chat (trim (replacePrefix [str "/chat"] wsStar trimmed)) 1.0
  else if isPath trimmed then
    mkIntent Path trimmed 0.9
  else if isCalculation trimmed then
    mkIntent Calculate trimmed 0.85
  else
    let appName :=
      trim (replacePrefix [str "open"; str "launch"; str "start"] wsPlus
              trimmed) in
    if isOpenCommand lower && (0 <? Z.of_nat (length appName)) then
      mkIntent App appName 0.9
    else if (50 <? Z.of_nat (length trimmed)) && hasSearchKeywords trimmed
    then
      mkIntent Search trimmed 0.7
    else if Z.of_nat (length trimmed) <=? 50 then
      mkIntent App trimmed 0.6
    else
      mkIntent App trimmed 0.4.

(** ** Suggestions and [Array.prototype.sort] *)

Module Suggestion.
Record t := mk {
  name : jsstring;
  path : jsstring;
  score : Q;
  isUWP : option bool;
  workingDirectory : option jsstring;
  arguments : option jsstring
}.
End Suggestion.

(** the sign test a sort applies to what its comparator returns *)
Definition isNegative (q : Q) : bool := (Qnum q <? 0)%Z.

(** [Array.prototype.sort(cmp)], as a stable insertion sort: the elements
    are placed from the left, each one before the first element already
    placed that the comparator orders after it ([cmp(x, y) < 0]) *)
Fixpoint insertSorted {A} (cmp : A -> A -> Q) (x : A) (placed : list A)
    : list A :=
  match placed with
  | [] => [x]
  | y :: placed' =>
      if isNegative (cmp x y) then x :: placed
      else y :: insertSorted cmp x placed'
  end.

Definition arraySort {A} (cmp : A -> A -> Q) (l : list A) : list A :=
  fold_left (fun placed x => insertSorted cmp x placed) l [].

(** [String.prototype.localeCompare] is the host's collation.  The
    development takes it as an interface: an integer-valued comparison
    that is a total preorder. *)
Class Collator := {
  localeCompare : jsstring -> jsstring -> Z;
  localeCompare_total a b : 0 <= localeCompare a b -> localeCompare b a <= 0;
  localeCompare_trans a b c :
    localeCompare a b <= 0 -> localeCompare b c <= 0 ->
    localeCompare a c <= 0
}.

(** ** Quit and switch suggestions (the suggestion effect, src/App.tsx) *)

Module RunningApp.
Record t := mk {
  name : jsstring;
  windowTitle : jsstring
}.
End RunningApp.

(** the comparator of the two sorts with a search term, on the lower-cased
    names [aName] and [bName] *)
Definition compareByTerm `{Collator} (searchTerm aName bName : jsstring)
    : Q :=
  if strEqb aName searchTerm then -1
  else if strEqb bName searchTerm then 1
  else if startsWith aName searchTerm then -1
  else if startsWith bName searchTerm then 1
  else inject_Z (localeCompare aName bName).

(** a string in a condition ([if (searchTerm)]) *)
Definition truthyString (s : jsstring) : bool :=
  match s with [] => false | _ :: _ => true end.

(** the filter and the sort shared by the quit branch and
    [filterAndDisplayApps] *)
Definition filterAndSortApps `{Collator} (searchTerm : jsstring)
    (apps : list RunningApp.t) : list RunningApp.t :=
  let filteredApps :=
    if truthyString searchTerm then
      filter (fun app =>
                includes (toLowerCase (RunningApp.name app)) searchTerm = true)
        apps
    else apps in
  if truthyString searchTerm then
    arraySort (fun a b =>
                 compareByTerm searchTerm (toLowerCase (RunningApp.name a))
                   (toLowerCase (RunningApp.name b)))
      filteredApps
  else
    arraySort (fun a b =>
                 inject_Z (localeCompare (toLowerCase (RunningApp.name a))
                             (toLowerCase (RunningApp.name b))))
      filteredApps.

(** [intent.value.toLowerCase().trim()] *)
Definition searchTermOf (intentValue : jsstring) : jsstring :=
  trim (toLowerCase intentValue).

Definition quitSuggestions `{Collator} (intentValue : jsstring)
    (apps : list RunningApp.t) : list Suggestion.t :=
  map (fun app =>
         Suggestion.mk (str "quit " ++ RunningApp.name app)
           (RunningApp.name app) 1.0 None None None)
    (filterAndSortApps (searchTermOf intentValue) apps).

Definition switchSuggestions `{Collator} (intentValue : jsstring)
    (apps : list RunningApp.t) : list Suggestion.t :=
  map (fun app =>
         Suggestion.mk (str "Switch to " ++ RunningApp.name app)
           (RunningApp.name app) 1.0 None None None)
    (filterAndSortApps (searchTermOf intentValue) apps).

(** ** App ranking ([searchApps], backend) *)

Module InstalledApp.
(** an entry of the installed-apps cache; a field the entry does not have
    is the empty string, which the program treats alike ([x || ""]) *)
Record t := mk {
  Name : jsstring;
  Path : jsstring;
  FullName : jsstring;
  AppId : jsstring;
  IsUWP : bool;
  WorkingDirectory : jsstring;
  Arguments : jsstring
}.
End InstalledApp.

(** [s.split(/\s+/).filter((w) => w.length > 0)]; [cur] is the word being
    read, last code unit first *)
Fixpoint splitWordsFrom (cur s : jsstring) : list jsstring :=
  match s with
  | [] => match cur with [] => [] | _ :: _ => [rev cur] end
  | c :: s' =>
      if isWhiteSpace c then
        match cur with
        | [] => splitWordsFrom [] s'
        | _ :: _ => rev cur :: splitWordsFrom [] s'
        end
      else splitWordsFrom (c :: cur) s'
  end.

Definition splitWords (s : jsstring) : list jsstring := splitWordsFrom [] s.

(** [a.length / Math.max(b.length, 1)] *)
Definition lengthRatio (a b : jsstring) : Q :=
  inject_Z (Z.of_nat (length a))
  / inject_Z (Z.max (Z.of_nat (length b)) 1).

(** the inner loop over [nameWords] for one query word: the score of the
    first name word that matches it, if there is one *)
Fixpoint wordMatch (qWord : jsstring) (nameWords : list jsstring)
    : option Q :=
  match nameWords with
  | [] => None
  | nWord :: rest =>
      if startsWith nWord qWord then Some (2000 * lengthRatio qWord nWord)%Q
      else if includes nWord qWord then
        Some (1000 * lengthRatio qWord nWord)%Q
      else if startsWith qWord nWord && (3 <=? Z.of_nat (length nWord)) then
        Some (800 * lengthRatio nWord qWord)%Q
      else wordMatch qWord rest
  end.

(** the outer loop: [(wordMatches, wordScore)] *)
Definition wordMatches (queryWords nameWords : list jsstring) : Z * Q :=
  fold_left
    (fun acc qWord =>
       match wordMatch qWord nameWords with
       | Some s => (fst acc + 1, (snd acc + s)%Q)
       | None => acc
       end)
    queryWords (0, 0%Q).

(** the number of code units of the query found in order in the name *)
Fixpoint sequenceMatches (nameLower queryLower : jsstring) : Z :=
  match nameLower, queryLower with
  | n :: nameLower', q :: queryLower' =>
      if charEqb n q then 1 + sequenceMatches nameLower' queryLower'
      else sequenceMatches nameLower' queryLower
  | _, _ => 0
  end.

Definition Qltb (a b : Q) : bool := negb (Qle_bool b a).

Definition scoreApp (queryLower : jsstring) (queryWords : list jsstring)
    (name : jsstring) : Q :=
  let nameLower := toLowerCase name in
  if strEqb nameLower queryLower then 10000%Q
  else if startsWith nameLower queryLower then
    (5000 + lengthRatio queryLower nameLower * 2000)%Q
  else if includes nameLower queryLower then
    (3000 + lengthRatio queryLower nameLower * 1000)%Q
  else
    let nameWords := splitWords nameLower in
    let '(matches, wordScore) := wordMatches queryWords nameWords in
    let score :=
      if 0 <? matches then
        let completenessBonus :=
          if matches =? Z.of_nat (length queryWords) then 1000%Q else 0%Q in
        (wordScore + completenessBonus
         + (inject_Z matches / inject_Z (Z.of_nat (length queryWords))) * 500)%Q
      else 0%Q in
    if Qeq_bool score 0 || Qltb score 100 then
      let found := sequenceMatches nameLower queryLower in
      if 0 <? found then
        (inject_Z found / inject_Z (Z.of_nat (length queryLower)) * 300)%Q
      else score
    else score.

(** [a.slice(0, limit)] *)
Definition slice0 {A} (limit : Z) (l : list A) : list A :=
  let len := Z.of_nat (length l) in
  take (Z.to_nat (if limit <? 0 then Z.max (len + limit) 0
                  else Z.min limit len)) l.

Definition orElse (a b : jsstring) : jsstring :=
  if truthyString a then a else b.

Definition toSuggestion (scored : InstalledApp.t * Q) : Suggestion.t :=
  let app := fst scored in
  let fullName := orElse (InstalledApp.FullName app) [] in
  let isDesktopShortcut :=
    includes (toLowerCase fullName) (str "desktop")
    && endsWith (toLowerCase fullName) (str ".lnk") in
  let pathToUse :=
    if isDesktopShortcut && truthyString fullName then fullName
    else orElse (InstalledApp.Path app) (orElse (InstalledApp.AppId app) [])
  in
  Suggestion.mk (InstalledApp.Name app) pathToUse (snd scored)
    (Some (InstalledApp.IsUWP app))
    (Some (InstalledApp.WorkingDirectory app))
    (Some (InstalledApp.Arguments app)).

(** the score [searchApps] gives an app; the words of the query are those
    of [queryLower] *)
Definition scoreOf (queryLower : jsstring) (app : InstalledApp.t) : Q :=
  scoreApp queryLower (splitWords queryLower) (InstalledApp.Name app).

(** [scoredApps.filter((app) => app.score > 0)
               .sort((a, b) => b.score - a.score)] *)
Definition rankedApps (queryLower : jsstring) (apps : list InstalledApp.t)
    : list (InstalledApp.t * Q) :=
  arraySort (fun a b => (snd b - snd a)%Q)
    (filter (fun app => Qltb 0 (snd app) = true)
       (map (fun app => (app, scoreOf queryLower app)) apps)).

(** [searchApps(query, limit)] over the installed apps [apps] that
    [findInstalledApps] returns *)
Definition searchApps (query : jsstring) (limit : Z)
    (apps : list InstalledApp.t) : list Suggestion.t :=
  if negb (truthyString query) || (Z.of_nat (length (trim query)) =? 0) then []
  else if Z.of_nat (length apps) =? 0 then []
  else
    let queryLower := trim (toLowerCase query) in
    map toSuggestion (slice0 limit (rankedApps queryLower apps)).

(** ** The suggestion list and its cursor (src/App.tsx)

    The three state variables [suggestions], [showSuggestions] and
    [selectedSuggestionIndex], and the events of the component that write
    them.  An event is handled on the state the component was last
    rendered with, and its writes take effect together. *)

Module Presenter.

Record State := mkState {
  suggestions : list Suggestion.t;
  showSuggestions : bool;
  selectedSuggestionIndex : Z
}.

(** the values of the three [useState] calls *)
Definition initial : State := mkState [] false 0.

Inductive Event :=
  | ArrowDown
  | ArrowUp
  | Escape
  | Enter
  (** a fetch of the suggestion effect resolved with this list *)
  | Resolved (result : list Suggestion.t)
  (** [setSuggestions([]); setShowSuggestions(false)] *)
  | Cleared
  (** [setShowSuggestions(b)] alone *)
  | Shown (b : bool)
  (** [onMouseEnter] of the entry rendered at [index] *)
  | MouseEnter (index : Z).

Definition listOpen (st : State) : bool :=
  showSuggestions st && (0 <? Z.of_nat (length (suggestions st))).

Definition handle (e : Event) (st : State) : State :=
  match e with
  | ArrowDown =>
      if listOpen st then
        let prev := selectedSuggestionIndex st in
        let newIndex :=
          if prev <? Z.of_nat (length (suggestions st)) - 1 then prev + 1
          else prev in
        mkState (suggestions st) (showSuggestions st) newIndex
      else st
  | ArrowUp =>
      if listOpen st then
        let prev := selectedSuggestionIndex st in
        let newIndex := if 0 <? prev then prev - 1 else 0 in
        mkState (suggestions st) (showSuggestions st) newIndex
      else st
  | Escape =>
      if listOpen st then mkState [] false 0 else st
  | Enter =>
      (* the branch of the key handler; what [handleExecute] writes
         afterwards is the event [Cleared] *)
      if listOpen st then mkState [] false (selectedSuggestionIndex st)
      else st
  | Resolved result =>
      if 0 <? Z.of_nat (length result) then mkState result true 0
      else mkState [] false (selectedSuggestionIndex st)
  | Cleared => mkState [] false (selectedSuggestionIndex st)
  | Shown b => mkState (suggestions st) b (selectedSuggestionIndex st)
  | MouseEnter index =>
      (* an entry is rendered, and can be entered, only while the list is
         open and has an element at [index] *)
      if listOpen st && (0 <=? index)
         && (index <? Z.of_nat (length (suggestions st)))
      then mkState (suggestions st) (showSuggestions st) index
      else st
  end.

Definition run (events : list Event) (st : State) : State :=
  fold_left (fun st e => handle e st) events st.

End Presenter.

(** ** Pending confirmations (the [/confirm] endpoint, backend) *)

Module Server.

(** a value of a JSON request body, [JUndefined] for a missing field *)
Inductive JsValue :=
  | JUndefined
  | JNull
  | JBool (b : bool)
  | JNumber (q : Q)
  | JString (s : jsstring).

Definition truthy (v : JsValue) : bool :=
  match v with
  | JUndefined | JNull => false
  | JBool b => b
  | JNumber q => negb (Qeq_bool q 0)
  | JString s => truthyString s
  end.

Inductive StepType := open_terminal | open_app | open_file.

(** what a collaborator answers: [{ success, message }] *)
Record OpResult := mkOpResult {
  opSuccess : bool;
  opMessage : jsstring
}.

Record StepResult := mkStepResult {
  stepType : StepType;
  stepValue : jsstring;
  resolvedPath : jsstring;
  outcome : OpResult
}.

Record WorkflowStep := mkWorkflowStep {
  kind : jsstring;
  argument : jsstring
}.

(** the record stored under a confirmation id; [appName] is empty where
    the record has none *)
Record Confirmation := mkConfirmation {
  type : StepType;
  originalValue : jsstring;
  appName : jsstring;
  stepIndex : Z;
  workflow : list WorkflowStep;
  currentDirectory : jsstring;
  results : list StepResult;
  allStdout : jsstring;
  allStderr : jsstring
}.

(** the collaborators the handler calls, and the preference it reads *)
Record World := mkWorld {
  openTerminalInDirectory : jsstring -> OpResult;
  execAsync : jsstring -> option jsstring;  (* [None]: resolved *)
  openApplication : jsstring -> OpResult;
  openFileOrFolder : jsstring -> OpResult;
  preferredIde : jsstring
}.

(** the side-effecting operations, as a trace *)
Inductive Effect :=
  | TerminalOpened (dir : jsstring)
  | CommandRun (command : jsstring)
  | ApplicationOpened (name : jsstring)
  | FileOpened (target : jsstring).

Abbreviation Pending := (gmap jsstring Confirmation).

(** a handler reads and writes the map [pendingConfirmations] and leaves a
    trace of the operations it performed *)
Definition Handler (A : Type) : Type := Pending -> A * Pending * list Effect.

Definition ret {A} (a : A) : Handler A := fun m => (a, m, []).

Definition bind {A B} (h : Handler A) (k : A -> Handler B) : Handler B :=
  fun m =>
    let '(a, m1, t1) := h m in
    let '(b, m2, t2) := k a m1 in
    (b, m2, t1 ++ t2).

Definition getPending (id : JsValue) : Handler (option Confirmation) :=
  fun m =>
    (match id with JString s => m !! s | _ => None end, m, []).

Definition deletePending (id : JsValue) : Handler unit :=
  fun m =>
    (tt, match id with JString s => delete s m | _ => m end, []).

Definition perform (e : Effect) : Handler unit := fun m => (tt, m, [e]).

Record Request := mkRequest {
  confirmationId : JsValue;
  confirmed : JsValue;
  path : option jsstring
}.

Record Response := mkResponse {
  status : Z;
  success : bool;
  cancelled : bool;
  error : jsstring;
  message : jsstring;
  stepResults : list StepResult
}.

Definition notFound : Response :=
  mkResponse 404 false false (str "Confirmation not found or expired") [] [].

Definition badRequest : Response :=
  mkResponse 400 false false
    (str "confirmationId and confirmed are required") [] [].

Definition cancelledByUser : Response :=
  mkResponse 200 false true [] (str "Operation cancelled by user") [].

Definition executed (rs : list StepResult) : Response :=
  mkResponse 200 true false [] (str "Operation confirmed and executed") rs.

Definition failed (msg : jsstring) : Response :=
  mkResponse 500 false false msg [] [].

(** [path || originalValue], for the body field [path]: a string, or
    [None] where the body has none *)
Definition confirmedPathOf (p : option jsstring) (originalValue : jsstring)
    : jsstring :=
  match p with
  | Some s => if truthyString s then s else originalValue
  | None => originalValue
  end.

(** the message of the [TypeError] that [path.resolve(...)] raises on the
    body field *)
Definition resolveError (p : option jsstring) : jsstring :=
  match p with
  | Some _ => str "path.resolve is not a function"
  | None => str "Cannot read properties of undefined (reading 'resolve')"
  end.

(** the step that is run again once the user has confirmed.  In the
    handler [path] names the field of the request body, so
    [path.resolve(confirmedPath)], reached when the terminal opened, throws
    and the handler answers 500. *)
Definition resume (w : World) (c : Confirmation) (p : option jsstring)
    : Handler Response :=
  let confirmedPath := confirmedPathOf p (originalValue c) in
  match type c with
  | open_terminal =>
      bind (perform (TerminalOpened confirmedPath)) (fun _ =>
      let stepResult := openTerminalInDirectory w confirmedPath in
      let rs := results c ++
                [mkStepResult open_terminal (originalValue c) confirmedPath
                   stepResult] in
      if opSuccess stepResult then
        ret (failed (resolveError p))
      else ret (executed rs))
  | open_app =>
      if truthyString (appName c) then
        let ideToUse :=
          if strEqb (appName c) (str "code")
          then orElse (preferredIde w) (str "code")
          else appName c in
        let command :=
          ideToUse ++ str " " ++ [chr 34] ++ confirmedPath ++ [chr 34] in
        bind (perform (CommandRun command)) (fun _ =>
        match execAsync w command with
        | None =>
            ret (executed
                   (results c ++
                    [mkStepResult open_app (originalValue c) confirmedPath
                       (mkOpResult true
                          (str "Opened " ++ ideToUse
                           ++ str " with directory: " ++ confirmedPath))]))
        | Some _ =>
            bind (perform (ApplicationOpened ideToUse)) (fun _ =>
            ret (executed
                   (results c ++
                    [mkStepResult open_app (originalValue c) confirmedPath
                       (openApplication w ideToUse)])))
        end)
      else ret (executed (results c))
  | open_file =>
      bind (perform (FileOpened confirmedPath)) (fun _ =>
      ret (executed
             (results c ++
              [mkStepResult open_file (originalValue c) confirmedPath
                 (openFileOrFolder w confirmedPath)])))
  end.

(** [app.post("/confirm", ...)] *)
Definition confirm (w : World) (req : Request) : Handler Response :=
  if negb (truthy (confirmationId req))
     || match confirmed req with JUndefined => true | _ => false end
  then ret badRequest
  else
    bind (getPending (confirmationId req)) (fun confirmation =>
    match confirmation with
    | None => ret notFound
    | Some c =>
        bind (deletePending (confirmationId req)) (fun _ =>
        if negb (truthy (confirmed req)) then ret cancelledByUser
        else resume w c (path req))
    end).

End Server.

(** ** Vocabulary of the properties *)

(** the place of a process name in the order of the quit and switch
    lists, without regard to case: 0 when the name equals the term, 1 when
    it starts with it, 2 otherwise *)
Definition processTier (searchTerm name : jsstring) : Z :=
  if strEqb (toLowerCase name) (toLowerCase searchTerm) then 0
  else if startsWith (toLowerCase name) (toLowerCase searchTerm) then 1
  else 2.

(** alphabetical order without regard to case, by the host's collation *)
Definition alphabetical `{Collator} (a b : jsstring) : Prop :=
  localeCompare (toLowerCase a) (toLowerCase b) <= 0.

Definition processOrder `{Collator} (searchTerm a b : jsstring) : Prop :=
  processTier searchTerm a < processTier searchTerm b
  \/ (processTier searchTerm a = processTier searchTerm b
      /\ (processTier searchTerm a = 2 -> alphabetical a b)).

(** what the quit and switch properties say of the process names
    [names] listed for the search term: with a term, the names that contain
    it without regard to case, the equal ones first, then those that start
    with it, then the others in alphabetical order; without one, all names
    in alphabetical order *)
Definition listsProcesses `{Collator} (searchTerm : jsstring)
    (apps : list RunningApp.t) (names : list jsstring) : Prop :=
  if truthyString searchTerm then
    names ≡ₚ filter (fun n => includes (toLowerCase n)
                                (toLowerCase searchTerm) = true)
               (map RunningApp.name apps)
    /\ StronglySorted (processOrder searchTerm) names
  else
    names ≡ₚ map RunningApp.name apps
    /\ StronglySorted alphabetical names.

(** the tier of an app name for a query, compared without regard to case:
    0 when the name equals the query, 1 when it starts with it, 2 when it
    contains it, 3 otherwise *)
Definition nameTier (query name : jsstring) : Z :=
  if strEqb (toLowerCase name) (toLowerCase query) then 0
  else if startsWith (toLowerCase name) (toLowerCase query) then 1
  else if includes (toLowerCase name) (toLowerCase query) then 2
  else 3.

(** the regular expression of the quit property, under the [i] flag: the
    word quit, and then either the end of the subject or one white-space
    code unit followed by code units that are no line terminators *)
Definition isLineTerminator (c : ascii) : bool :=
  (code c =? 10) || (code c =? 13).

Definition quitPattern (s : jsstring) : bool :=
  match matchLitCI (str "quit") s with
  | Some [] => true
  | Some (c :: r) =>
      isWhiteSpace c && forallb (fun x => negb (isLineTerminator x)) r
  | None => false
  end.

(** a suggestion cursor inside its list, or no list *)
Definition cursorInBounds (st : Presenter.State) : Prop :=
  Presenter.suggestions st = [] \/
  0 <= Presenter.selectedSuggestionIndex st
    < Z.of_nat (length (Presenter.suggestions st)).

(** an answer of the user that declines: [confirmed] is present and
    falsy *)
Definition declines (v : Server.JsValue) : Prop :=
  v <> Server.JUndefined /\ Server.truthy v = false.

(** every code unit, for properties of single code units that are checked
    by running through them *)
Definition allChars : list ascii := map ascii_of_nat (seq 0 256).

(** a code unit of a literal of the program: ASCII and no capital *)
Definition plainLit (x : ascii) : bool :=
  (code x <? 128) && negb (isUpperAZ x).

(** ** Sample data *)

Definition sampleApp (name : string) : InstalledApp.t :=
  InstalledApp.mk (str name) (str "C:\Apps\app.exe") [] [] false [] [].

Definition sampleApps : list InstalledApp.t :=
  [sampleApp "Visual Studio Code"; sampleApp "Codex"; sampleApp "Code";
   sampleApp "Notepad"].

Definition sampleConfirmation : Server.Confirmation :=
  Server.mkConfirmation Server.open_terminal (str "C:\missing") [] 0 []
    (str "C:\") [] [] [].

(** a world in which no operation succeeds *)
Definition sampleWorld : Server.World :=
  Server.mkWorld
    (fun _ => Server.mkOpResult false (str "Failed to open terminal"))
    (fun _ => Some (str "not recognized"))
    (fun _ => Server.mkOpResult false (str "Failed to open application"))
    (fun _ => Server.mkOpResult false (str "Failed to open path"))
    [].

(** A collation to run the suggestion builders with: the order of the code
    units. *)
Fixpoint compareUnits (a b : jsstring) : Z :=
  match a, b with
  | [], [] => 0
  | [], _ :: _ => -1
  | _ :: _, [] => 1
  | x :: a', y :: b' =>
      if code x <? code y then -1
      else if code y <? code x then 1
      else compareUnits a' b'
  end.

#[export] Instance unitCollator : Collator.
Proof.
  refine {| localeCompare := compareUnits |}.
  - intros a. induction a as [|x a IH]; intros [|y b]; simpl; try lia.
    destruct (Z.ltb_spec (code x) (code y)), (Z.ltb_spec (code y) (code x));
      try lia.
    apply IH.
  - intros a. induction a as [|x a IH]; intros [|y b] [|z c]; simpl; try lia.
    destruct (Z.ltb_spec (code x) (code y)), (Z.ltb_spec (code y) (code x)),
      (Z.ltb_spec (code y) (code z)), (Z.ltb_spec (code z) (code y)),
      (Z.ltb_spec (code x) (code z)), (Z.ltb_spec (code z) (code x));
      try lia.
    apply IH.
Defined.

(** * Further code of the palette and of its backend *)

(** ** More string operations *)

(** [s.indexOf(p)]: the position of the first occurrence, or -1 *)
Fixpoint indexOfFrom (i : Z) (s p : jsstring) : Z :=
  if startsWith s p then i
  else
    match s with
    | [] => -1
    | _ :: s' => indexOfFrom (i + 1) s' p
    end.

Definition indexOf (s p : jsstring) : Z := indexOfFrom 0 s p.

(** [s.substring(a, b)]: both ends are clamped to the string, and swapped
    when they come in the wrong order *)
Definition clampIndex (len i : Z) : Z := Z.max 0 (Z.min i len).

Definition substring (s : jsstring) (a b : Z) : jsstring :=
  let len := Z.of_nat (length s) in
  let a' := clampIndex len a in
  let b' := clampIndex len b in
  take (Z.to_nat (Z.max a' b' - Z.min a' b'))
    (drop (Z.to_nat (Z.min a' b')) s).

(** [s.substring(a)] *)
Definition substringFrom (s : jsstring) (a : Z) : jsstring :=
  substring s a (Z.of_nat (length s)).

(** [s.replace(p, "")] for a string [p]: the first occurrence goes *)
Definition removeFirst (s p : jsstring) : jsstring :=
  let i := indexOf s p in
  if i =? -1 then s
  else substring s 0 i ++ substringFrom s (i + Z.of_nat (length p)).

(** [s.split(/(\s+)/)]: the pieces between the runs of white space and,
    for the capture group, the runs themselves, in turn; [inWs] tells
    whether the piece [cur] being read (last code unit first) is a run *)
Fixpoint splitKeepFrom (inWs : bool) (cur s : jsstring) : list jsstring :=
  match s with
  | [] => if inWs then [rev cur; []] else [rev cur]
  | c :: s' =>
      if isWhiteSpace c then
        if inWs then splitKeepFrom true (c :: cur) s'
        else rev cur :: splitKeepFrom true [c] s'
      else
        if inWs then rev cur :: splitKeepFrom false [c] s'
        else splitKeepFrom false (c :: cur) s'
  end.

Definition splitKeepWs (s : jsstring) : list jsstring :=
  splitKeepFrom false [] s.

(** ** Highlighting the match in a suggestion ([highlightMatch],
    src/App.tsx) *)

(** a child of the fragment that is rendered: text, or text inside
    [<mark>] *)
Inductive Node :=
  | Text (s : jsstring)
  | Mark (s : jsstring).

Definition nodeText (n : Node) : jsstring :=
  match n with Text s => s | Mark s => s end.

(** what the fragment shows *)
Definition nodesText (l : list Node) : jsstring := concat (map nodeText l).

(** the loop over [queryWords] for one segment: the first query word that
    the segment contains is marked at its first occurrence *)
Fixpoint highlightSegment (queryWords : list jsstring)
    (segment : jsstring) : option (list Node) :=
  match queryWords with
  | [] => None
  | qWord :: rest =>
      let segmentLower := toLowerCase segment in
      if includes segmentLower qWord then
        let matchIndex := indexOf segmentLower qWord in
        if negb (matchIndex =? -1) then
          Some [Text (substring segment 0 matchIndex);
                Mark (substring segment matchIndex
                        (matchIndex + Z.of_nat (length qWord)));
                Text (substringFrom segment
                        (matchIndex + Z.of_nat (length qWord)))]
        else highlightSegment rest segment
      else highlightSegment rest segment
  end.

(** the body of the loop over [textWords] *)
Definition highlightWord (queryWords : list jsstring) (segment : jsstring)
    : list Node :=
  if negb (truthyString (trim segment)) then [Text segment]
  else
    match highlightSegment queryWords segment with
    | Some nodes => nodes
    | None => [Text segment]
    end.

Definition highlightMatch (text query : jsstring) : list Node :=
  if negb (truthyString query) || negb (truthyString text) then [Text text]
  else
    let queryLower := trim (toLowerCase query) in
    let textLower := toLowerCase text in
    let exactIndex := indexOf textLower queryLower in
    if negb (exactIndex =? -1) then
      (if 0 <? exactIndex then [Text (substring text 0 exactIndex)] else [])
      ++ [Mark (substring text exactIndex
                  (exactIndex + Z.of_nat (length query)))]
      ++ (if exactIndex + Z.of_nat (length query) <? Z.of_nat (length text)
          then [Text (substringFrom text
                        (exactIndex + Z.of_nat (length query)))]
          else [])
    else
      let queryWords := splitWords queryLower in
      if Z.of_nat (length queryWords) =? 0 then [Text text]
      else
        let result :=
          flat_map (highlightWord queryWords) (splitKeepWs text) in
        if 0 <? Z.of_nat (length result) then result else [Text text].

(** ** The app search of the suggestion effect and the system commands
    (src/App.tsx) *)

#[export] Instance IntentType_eq_dec : EqDecision IntentType.
Proof. solve_decision. Defined.

Module SystemCommand.
Record t := mk {
  name : jsstring;
  display : jsstring;
  action : jsstring
}.
End SystemCommand.

Definition systemCommands : list SystemCommand.t :=
  [ SystemCommand.mk (str "restart") (str "Restart Computer") (str "restart");
    SystemCommand.mk (str "shutdown") (str "Shutdown Computer")
      (str "shutdown");
    SystemCommand.mk (str "sleep") (str "Sleep") (str "sleep");
    SystemCommand.mk (str "hibernate") (str "Hibernate") (str "hibernate");
    SystemCommand.mk (str "lock") (str "Lock Screen") (str "lock");
    SystemCommand.mk (str "signout") (str "Sign Out") (str "signout") ].

Definition matchesSystemCommand (searchTermLower : jsstring) : bool :=
  existsb
    (fun cmd =>
       strEqb (toLowerCase (SystemCommand.name cmd)) searchTermLower
       || includes (toLowerCase (SystemCommand.display cmd)) searchTermLower
       || includes searchTermLower (toLowerCase (SystemCommand.name cmd)))
    systemCommands.

Definition shouldBlockAppSuggestions (intent : Intent) : bool :=
  (bool_decide (type intent = Url) && Qle_bool 0.9 (confidence intent))
  || (bool_decide (type intent = Path) && Qle_bool 0.9 (confidence intent))
  || (bool_decide (type intent = Calculate)
      && Qle_bool 0.85 (confidence intent)).

Definition filteredSystemCommands (searchTermLower : jsstring)
    : list SystemCommand.t :=
  filter
    (fun cmd =>
       includes (toLowerCase (SystemCommand.name cmd)) searchTermLower
       || includes (toLowerCase (SystemCommand.display cmd)) searchTermLower
       = true)
    systemCommands.

Definition systemSuggestion (cmd : SystemCommand.t) : Suggestion.t :=
  Suggestion.mk (SystemCommand.display cmd)
    (str "system:" ++ SystemCommand.action cmd) 1.0 None None None.

(** [systemSuggestions] after its sort *)
Definition sortedSystemSuggestions `{Collator} (searchTermLower : jsstring)
    : list Suggestion.t :=
  arraySort
    (fun a b =>
       compareByTerm searchTermLower (toLowerCase (Suggestion.name a))
         (toLowerCase (Suggestion.name b)))
    (map systemSuggestion (filteredSystemCommands searchTermLower)).

(** [allSuggestions], for the [data.suggestions || []] of the response *)
Definition allSuggestions `{Collator} (searchTermLower : jsstring)
    (appSuggestions : list Suggestion.t) : list Suggestion.t :=
  sortedSystemSuggestions searchTermLower ++ appSuggestions.

(** the type filter of the recent branch *)
Definition recentTypeFilter (searchTerm : jsstring) : option jsstring :=
  if includes searchTerm (str "folder") then Some (str "folders")
  else if includes searchTerm (str "file") then Some (str "files")
  else None.

(** What the suggestion effect sets out to do for a prompt: nothing at all
    while a command is being executed, clear the list, or build the list
    from one of the three fetches. *)
Inductive Plan :=
  | Untouched
  | ClearList
  | ListRunning (forQuit : bool) (searchTerm : jsstring)
  | ListRecent (typeFilter : option jsstring) (searchTerm : jsstring)
  | ListApps (appName searchTermLower : jsstring).

Definition suggestionPlan (isExecuting : bool) (prompt : jsstring) : Plan :=
  if isExecuting then Untouched
  else if negb (truthyString (trim prompt)) then ClearList
  else
    let intent := detectIntent prompt in
    match type intent with
    | Quit => ListRunning true (searchTermOf (value intent))
    | Switch => ListRunning false (searchTermOf (value intent))
    | Recent =>
        ListRecent (recentTypeFilter (searchTermOf (value intent)))
          (searchTermOf (value intent))
    | _ =>
        let searchTermLower := trim (toLowerCase prompt) in
        if shouldBlockAppSuggestions intent
           && negb (matchesSystemCommand searchTermLower)
        then ClearList
        else
          ListApps
            (if bool_decide (type intent = App) then value intent
             else trim prompt)
            searchTermLower
    end.

(** ** Executing a command ([handleExecute], src/App.tsx) *)

(** [s.startsWith(p)] for a pattern with code units above U+00FF, given by
    their numbers *)
Fixpoint startsWithUnits (s : jsstring) (p : list Z) : bool :=
  match p, s with
  | [], _ => true
  | x :: p', y :: s' => (code y =? x) && startsWithUnits s' p'
  | _ :: _, [] => false
  end.

(** the two markers of recent items, as the source file has them: U+00F0,
    U+0178, U+201C, and for a file U+201E after these *)
Definition folderMarker : list Z := [240; 376; 8220].
Definition fileMarker : list Z := [240; 376; 8220; 8222].

Module Palette.

(** the optional fields of the body sent to [/open-app] *)
Record AppDetails := mkDetails {
  appPath : jsstring;
  isUWP : bool;
  workingDirectory : jsstring;
  arguments : jsstring
}.

(** a POST to the backend, with the fields of its body *)
Inductive Request :=
  | PostPrompt (prompt : jsstring)
  | PostFocusApp (appName : jsstring)
  | PostQuitApp (appName : jsstring)
  | PostOpenPath (path : jsstring)
  | PostCalculate (expression : jsstring)
  | PostSearchWeb (query : jsstring)
  | PostOpenApp (appName : jsstring) (details : option AppDetails).

Definition detailsOf (app : Suggestion.t) : AppDetails :=
  mkDetails (Suggestion.path app)
    (default false (Suggestion.isUWP app))
    (default [] (Suggestion.workingDirectory app))
    (default [] (Suggestion.arguments app)).

(** the first part of [handleExecute]: a suggestion is selected *)
Definition executeSelected (selected : Suggestion.t) : Request :=
  let intent := detectIntent (Suggestion.name selected) in
  if truthyString (Suggestion.path selected)
     && startsWith (Suggestion.path selected) (str "system:")
  then PostPrompt (removeFirst (Suggestion.path selected) (str "system:"))
  else if bool_decide (type intent = Switch)
          || startsWith (Suggestion.name selected) (str "Switch to ")
  then PostFocusApp (Suggestion.path selected)
  else if bool_decide (type intent = Quit)
          || startsWith (Suggestion.name selected) (str "quit ")
  then PostQuitApp (Suggestion.path selected)
  else if startsWithUnits (Suggestion.name selected) folderMarker
          || startsWithUnits (Suggestion.name selected) fileMarker
          || bool_decide (type intent = Recent)
  then PostOpenPath (Suggestion.path selected)
  else PostOpenApp (Suggestion.name selected) (Some (detailsOf selected)).

(** the [url] case *)
Definition normalizeUrl (intentValue : jsstring) : jsstring :=
  let url := trim intentValue in
  if negb (startsWith url (str "http://"))
     && negb (startsWith url (str "https://"))
  then
    if startsWith url (str "localhost") then str "http://" ++ url
    else str "https://" ++ url
  else url.

(** the second part: the prompt is dispatched on its intent.  [searchData]
    is the answer of [/search-apps] in the [app] case, [None] when the
    fetch throws; the result is [None] when the function returns without a
    request. *)
Definition executeDirect (searchData : option (list Suggestion.t))
    (prompt : jsstring) : option Request :=
  if negb (truthyString (trim prompt)) then None
  else
    let currentPrompt := prompt in
    let intent := detectIntent currentPrompt in
    match type intent with
    | Chat => Some (PostPrompt (orElse (value intent) currentPrompt))
    | Path => Some (PostOpenPath (value intent))
    | Calculate => Some (PostCalculate (value intent))
    | Search => Some (PostSearchWeb (value intent))
    | Quit =>
        if truthyString (value intent) then Some (PostQuitApp (value intent))
        else None
    | Switch =>
        if truthyString (value intent) then Some (PostFocusApp (value intent))
        else None
    | Recent => None
    | Url => Some (PostSearchWeb (normalizeUrl (value intent)))
    | App =>
        match searchData with
        | Some (app :: _) =>
            Some (PostOpenApp (Suggestion.name app) (Some (detailsOf app)))
        | _ => Some (PostOpenApp (value intent) None)
        end
    | Unknown => Some (PostPrompt currentPrompt)
    end.

(** what [handleExecute] does *)
Inductive Outcome :=
  (** [selected] is undefined and reading [selected.name] throws *)
  | Throws
  | Returns
  | Sends (r : Request).

(** [a[i]] for a number [i] that is an integer *)
Definition nth_Z {A} (l : list A) (i : Z) : option A :=
  if i <? 0 then None else l !! Z.to_nat i.

Definition handleExecute (st : Presenter.State)
    (selectedApp : option Suggestion.t)
    (searchData : option (list Suggestion.t)) (prompt : jsstring)
    : Outcome :=
  if Presenter.showSuggestions st
     && (0 <? Z.of_nat (length (Presenter.suggestions st)))
  then
    match selectedApp with
    | Some selected => Sends (executeSelected selected)
    | None =>
        match nth_Z (Presenter.suggestions st)
                (Presenter.selectedSuggestionIndex st) with
        | Some selected => Sends (executeSelected selected)
        | None => Throws
        end
    end
  else
    match executeDirect searchData prompt with
    | Some r => Sends r
    | None => Returns
    end.

End Palette.

(** ** What the backend requires of a request (backend) *)

(** [encodeURIComponent] on code units below U+0100: the unreserved marks
    stay, a code unit below U+0080 is one escaped octet, and one above is
    the two octets of its UTF-8 form *)
Definition isUriUnreserved (c : ascii) : bool :=
  isUpperAZ c || isLowerAZ c || isDigit c
  || existsb (charEqb c) (str "-_.!~*'()").

Definition hexDigit (n : Z) : ascii :=
  if n <? 10 then chr (48 + n) else chr (55 + n).

Definition percentOctet (octet : Z) : jsstring :=
  [chr 37; hexDigit (octet / 16); hexDigit (octet mod 16)].

Definition encodeUnit (c : ascii) : jsstring :=
  if isUriUnreserved c then [c]
  else if code c <? 128 then percentOctet (code c)
  else percentOctet (192 + code c / 64) ++ percentOctet (128 + code c mod 64).

Definition encodeURIComponent (s : jsstring) : jsstring :=
  flat_map encodeUnit s.

Module Backend.

(** [expression.trim().replace(/[^0-9+\-*/().\s]/g, "")] of [/calculate] *)
Definition sanitize (expression : jsstring) : jsstring :=
  List.filter isMathChar (trim expression).

(** the second replacement, before the fallback evaluation *)
Definition safeExpression (sanitized : jsstring) : jsstring :=
  List.filter isMathChar sanitized.

(** what [/search-web] opens *)
Inductive WebAction :=
  | OpenUrl (url : jsstring)
  | OpenSearch (searchUrl : jsstring).

Definition opened (a : WebAction) : jsstring :=
  match a with OpenUrl url => url | OpenSearch searchUrl => searchUrl end.

(** the command line handed to [cmd.exe]: [start], an empty title in
    double quotes, and the address in double quotes *)
Definition webCommand (a : WebAction) : jsstring :=
  str "start " ++ [chr 34; chr 34] ++ str " "
  ++ [chr 34] ++ opened a ++ [chr 34].

(** [/search-web] up to the command: [None] is the answer 400 *)
Definition searchWeb (query : jsstring) : option WebAction :=
  if negb (truthyString query) || negb (truthyString (trim query)) then None
  else
    let queryTrimmed := trim query in
    if startsWith queryTrimmed (str "http://")
       || startsWith queryTrimmed (str "https://")
    then Some (OpenUrl queryTrimmed)
    else
      Some (OpenSearch (str "https://www.google.com/search?q="
                        ++ encodeURIComponent queryTrimmed)).

(** the checks of the body at the head of each handler: the error of the
    answer 400, if the request is refused.  The fields of a request are
    strings, so the [typeof] tests pass. *)
Definition refuses (r : Palette.Request) : option jsstring :=
  match r with
  | Palette.PostPrompt prompt =>
      if negb (truthyString prompt)
      then Some (str "Prompt is required and must be a string") else None
  | Palette.PostFocusApp appName
  | Palette.PostQuitApp appName
  | Palette.PostOpenApp appName _ =>
      if negb (truthyString appName) then Some (str "App name is required")
      else None
  | Palette.PostOpenPath path =>
      if negb (truthyString path) then Some (str "Path is required") else None
  | Palette.PostCalculate expression =>
      if negb (truthyString expression) then Some (str "Expression is required")
      else if negb (truthyString (sanitize expression))
      then Some (str "Invalid expression")
      else None
  | Palette.PostSearchWeb query =>
      if isSome (searchWeb query) then None
      else Some (str "Search query is required")
  end.

(** [/search-apps]: the suggestions of the answer, for the installed apps
    [apps]; [timedOut] tells that the search lost its race against the
    timer of 500 ms *)
Definition searchAppsRoute (timedOut : bool) (q : jsstring)
    (apps : list InstalledApp.t) : list Suggestion.t :=
  if negb (truthyString q) || (Z.of_nat (length (trim q)) =? 0) then []
  else if timedOut then []
  else searchApps (trim q) 10 apps.

End Backend.

(** ** Projects and their ports ([resolveProject], [detectPort], backend) *)

Module Project.
(** a project of the preferences; [port] is the empty string when the
    project has none, which the program treats alike ([project.port]) *)
Record t := mk {
  nickname : jsstring;
  filepath : jsstring;
  startCommand : jsstring;
  port : jsstring
}.
End Project.

(** [resolveProject(nickname)] for the [userPreferences.projects] given,
    [None] when that is no array; the result [None] is [null] *)
Definition resolveProject (projects : option (list Project.t))
    (nickname : jsstring) : option Project.t :=
  match projects with
  | None => None
  | Some items =>
      let nicknameLower := trim (toLowerCase nickname) in
      List.find
        (fun item =>
           truthyString (Project.nickname item)
           && strEqb (toLowerCase (Project.nickname item)) nicknameLower)
        items
  end.

(** the projects [savePreferences] keeps when it filters the empty ones
    (src/App.tsx) *)
Definition cleanedProjects (projects : list Project.t) : list Project.t :=
  List.filter
    (fun item =>
       truthyString (trim (Project.nickname item))
       && truthyString (trim (Project.filepath item)))
    projects.

(** the longest prefix of class members *)
Fixpoint takeClass (cls : ascii -> bool) (s : jsstring) : jsstring :=
  match s with
  | c :: s' => if cls c then c :: takeClass cls s' else []
  | [] => []
  end.

(** [(\d+)] at the end of a pattern; the result is the capture *)
Definition digitsCapture (s : jsstring) : option jsstring :=
  match takeClass isDigit s with
  | [] => None
  | d :: ds => Some (d :: ds)
  end.

(** [c+] for a class [c] inside a pattern, before something no member of
    the class can begin *)
Definition classPlus (cls : ascii -> bool) (s : jsstring) : option jsstring :=
  match s with
  | c :: s' => if cls c then Some (skipClass cls s') else None
  | [] => None
  end.

(** [s.match(re)] for a pattern that is not anchored: the pattern is tried
    at every position from the left, and the first success is the match *)
Fixpoint searchFrom {A} (m : jsstring -> option A) (s : jsstring)
    : option A :=
  match m s with
  | Some r => Some r
  | None =>
      match s with
      | _ :: s' => searchFrom m s'
      | [] => None
      end
  end.

(** [/(?:--port|-p)\s+(\d+)/i] at one position *)
Definition portFlag (s : jsstring) : option jsstring :=
  matchAltCI [str "--port"; str "-p"] (fun r => wsPlus r ≫= digitsCapture) s.

(** [/PORT\s*=\s*(\d+)/i] at one position *)
Definition portVariable (s : jsstring) : option jsstring :=
  r ← matchLitCI (str "PORT") s;
  r ← wsStar r;
  r ← matchLitCI (str "=") r;
  r ← wsStar r;
  digitsCapture r.

(** [/localhost[:\s]+(\d+)/i] at one position *)
Definition portOfAddress (s : jsstring) : option jsstring :=
  r ← matchLitCI (str "localhost") s;
  r ← classPlus (fun c => (code c =? 58) || isWhiteSpace c) r;
  digitsCapture r.

(** [detectPort(project, defaultPort)]; [project] is [None] for [null],
    and [defaultPort] is the empty string when there is none *)
Definition detectPort (project : option Project.t) (defaultPort : jsstring)
    : jsstring :=
  let fallback := orElse defaultPort (str "3000") in
  match project with
  | None => fallback
  | Some project =>
      if truthyString (Project.port project) then Project.port project
      else if truthyString (Project.startCommand project) then
        let command := Project.startCommand project in
        match searchFrom portFlag command with
        | Some port => port
        | None =>
            match searchFrom portVariable command with
            | Some port => port
            | None =>
                match searchFrom portOfAddress command with
                | Some port => port
                | None =>
                    if includes command (str "vite") then str "5173"
                    else if includes command (str "next") then str "3000"
                    else if includes command (str "react-scripts")
                            || includes command (str "create-react-app")
                    then str "3000"
                    else fallback
                end
            end
        end
      else fallback
  end.

(** ** The running apps ([/running-apps], backend) *)

Module Process.
(** an entry of the process list PowerShell prints; a field the entry
    lacks is the empty string *)
Record t := mk {
  ProcessName : jsstring;
  MainWindowTitle : jsstring
}.
End Process.

(** the body of the loop over [processes]; [appMap] holds its entries in
    the order they were set, as a [Map] does *)
Definition addProcess (appMap : list (jsstring * RunningApp.t))
    (proc : Process.t) : list (jsstring * RunningApp.t) :=
  if truthyString (Process.ProcessName proc) then
    let procName := trim (Process.ProcessName proc) in
    if truthyString procName
       && negb (existsb (fun entry => strEqb (fst entry) (toLowerCase procName))
                  appMap)
    then
      appMap
      ++ [(toLowerCase procName,
           RunningApp.mk procName (orElse (Process.MainWindowTitle proc) []))]
    else appMap
  else appMap.

(** the [apps] of the answer *)
Definition runningApps `{Collator} (processes : list Process.t)
    : list RunningApp.t :=
  arraySort
    (fun a b => inject_Z (localeCompare (RunningApp.name a) (RunningApp.name b)))
    (map snd (fold_left addProcess processes [])).

(** ** One entry per app name ([findInstalledAppsInternal], backend) *)

(** the body of the two loops over [allApps]: the first takes the apps
    that are not UWP apps, the second the UWP apps *)
Definition addUnique (wantUWP : bool)
    (st : list InstalledApp.t * gset jsstring) (app : InstalledApp.t)
    : list InstalledApp.t * gset jsstring :=
  let '(uniqueApps, seenNames) := st in
  if Bool.eqb (InstalledApp.IsUWP app) wantUWP
     && negb (bool_decide (toLowerCase (InstalledApp.Name app) ∈ seenNames))
  then (uniqueApps ++ [app],
        {[ toLowerCase (InstalledApp.Name app) ]} ∪ seenNames)
  else st.

Definition uniqueApps (allApps : list InstalledApp.t) : list InstalledApp.t :=
  fst (fold_left (addUnique true) allApps
         (fold_left (addUnique false) allApps ([], ∅))).

(** ** The mode of the window (main process, and [windowMode] of
    src/App.tsx)

    The two variables [isMinimalMode] and [wasMinimizedFromFullMode] of the
    main process, the handlers that write them, and the messages
    [window-mode-changed] they send to the renderer.  The handlers are
    taken with the window in existence ([mainWindow] is set). *)

Module Window.

Inductive Mode := minimal | full.

Record State := mkState {
  isMinimalMode : bool;
  wasMinimizedFromFullMode : bool
}.

(** the initial values of the two variables *)
Definition initial : State := mkState true false.

Inductive Event :=
  (** the event [minimize] of the window *)
  | Minimized
  (** the timer started by the event [show] of the window *)
  | Shown
  (** [set-window-mode] *)
  | SetWindowMode (mode : Mode)
  (** [toggle-window-visibility] and the shortcut Alt+Space, which have
      the same body; [isVisible] is what [mainWindow.isVisible()] returns *)
  | ToggleVisibility (isVisible : bool).

(** the new state, and the modes sent with [window-mode-changed] *)
Definition handle (e : Event) (st : State) : State * list Mode :=
  match e with
  | Minimized =>
      if negb (isMinimalMode st) then (mkState (isMinimalMode st) true, [])
      else (st, [])
  | Shown =>
      if wasMinimizedFromFullMode st then (mkState true false, [minimal])
      else (st, [])
  | SetWindowMode mode =>
      (mkState (match mode with minimal => true | full => false end)
         (wasMinimizedFromFullMode st),
       [mode])
  | ToggleVisibility isVisible =>
      if isVisible then
        if negb (isMinimalMode st)
        then (mkState (isMinimalMode st) true, [])
        else (st, [])
      else
        if wasMinimizedFromFullMode st
        then (mkState true false, [minimal])
        else (st, [])
  end.

(** [setWindowMode(mode)] of the renderer for each message, from the
    mode it holds *)
Definition received (windowMode : Mode) (messages : list Mode) : Mode :=
  fold_left (fun _ mode => mode) messages windowMode.

(** the main process and the renderer after a sequence of events *)
Definition run (events : list Event) (st : State) (windowMode : Mode)
    : State * Mode :=
  fold_left
    (fun acc e =>
       let '(st', messages) := handle e (fst acc) in
       (st', received (snd acc) messages))
    events (st, windowMode).

Definition modeOf (st : State) : Mode :=
  if isMinimalMode st then minimal else full.

End Window.

(** ** New confirmation ids (the workflow of [/prompt], backend) *)

From Stdlib Require DecimalString DecimalN.

(** the decimal numeral a template literal makes of a number that is a
    non-negative integer *)
Definition numberToString (n : N) : jsstring :=
  str (DecimalString.NilEmpty.string_of_uint (N.to_uint n)).

Module Confirmations.

(** [confirmationIdCounter] and [pendingConfirmations]; the counter is
    taken as an integer without bound *)
Record State := mkState {
  confirmationIdCounter : N;
  pendingConfirmations : Server.Pending
}.

Definition initial : State := mkState 0 ∅.

(** the id made of the clock and of the counter *)
Definition idOf (now counter : N) : jsstring :=
  str "confirm_" ++ numberToString now ++ str "_" ++ numberToString counter.

(** a step that needs a confirmation: the counter is incremented, and the
    record is set under the id made of [Date.now()] and of the counter *)
Definition register (now : N) (c : Server.Confirmation) (st : State)
    : jsstring * State :=
  let counter := (confirmationIdCounter st + 1)%N in
  let confirmationId := idOf now counter in
  (confirmationId,
   mkState counter (<[confirmationId := c]> (pendingConfirmations st))).

(** the two ways the state changes: a confirmation is registered, or a
    request to [/confirm] is handled *)
Inductive step : State -> State -> Prop :=
  | step_register now c st : step st (snd (register now c st))
  | step_confirm w req st :
      step st
        (mkState (confirmationIdCounter st)
           (snd (fst (Server.confirm w req (pendingConfirmations st))))).

Inductive reachable : State -> Prop :=
  | reachable_initial : reachable initial
  | reachable_step st st' : reachable st -> step st st' -> reachable st'.

End Confirmations.

(** ** Vocabulary of the further properties *)

(** a code unit that [encodeURIComponent] can produce *)
Definition isUriSafe (c : ascii) : bool :=
  isUriUnreserved c || (code c =? 37).

(** the code units that end or split a quoted argument of [cmd.exe]: the
    double quote, white space, and the operators & | < > ^ *)
Definition isShellSpecial (c : ascii) : bool :=
  (code c =? 34) || isWhiteSpace c
  || existsb (charEqb c) (str "&|<>^").

(** the answer of [/search-apps] as [handleExecute] gets it: [None] when
    the fetch throws *)
Definition searchDataOf (failed timedOut : bool) (q : jsstring)
    (apps : list InstalledApp.t) : option (list Suggestion.t) :=
  if failed then None else Some (Backend.searchAppsRoute timedOut q apps).

(** the entry [addProcess] makes of a process *)
Definition entryOf (proc : Process.t) : jsstring * RunningApp.t :=
  (toLowerCase (trim (Process.ProcessName proc)),
   RunningApp.mk (trim (Process.ProcessName proc))
     (Process.MainWindowTitle proc)).

(** the name two apps are compared by *)
Definition nameKey (app : InstalledApp.t) : jsstring :=
  toLowerCase (InstalledApp.Name app).

(** the set of seen names holds the names of the apps taken so far, and
    these differ *)
Definition uniqueInv (st : list InstalledApp.t * gset jsstring) : Prop :=
  NoDup (map nameKey (fst st))
  /\ forall k, k ∈ snd st <-> In k (map nameKey (fst st)).

(** ** Sample data of the further properties *)

Definition sampleProject : Project.t :=
  Project.mk (str "Web") (str "C:\src\web") (str "npm run dev -- --port 8080")
    [].

Definition sampleProjects : list Project.t :=
  [ Project.mk [] (str "C:\src\none") [] [];
    sampleProject;
    Project.mk (str " api ") (str "C:\src\api") (str "vite") [] ].

(** * Properties *)

(** ** Code units by enumeration *)

Lemma allChars_complete (c : ascii) : In c allChars.
Proof.
  unfold allChars. apply in_map_iff. exists (nat_of_ascii c). split.
  - apply ascii_nat_embedding.
  - apply in_seq. pose proof (nat_ascii_bounded c). lia.
Qed.

Lemma forall_char (P : ascii -> bool) :
  forallb P allChars = true -> forall c, P c = true.
Proof.
  intros H c. rewrite forallb_forall in H. apply H, allChars_complete.
Qed.

Lemma forall_char2 (P : ascii -> ascii -> bool) :
  forallb (fun a => forallb (P a) allChars) allChars = true ->
  forall a b, P a b = true.
Proof.
  intros H a b. apply forall_char with (P := P a).
  apply (forall_char (fun a => forallb (P a) allChars) H).
Qed.

Ltac by_chars :=
  first [ apply forall_char2 | apply forall_char ]; vm_compute; reflexivity.

Lemma charEqb_eq a b : charEqb a b = true <-> a = b.
Proof.
  split.
  - intros H. apply Z.eqb_eq in H. unfold code in H.
    apply N2Z.inj in H.
    rewrite <- (ascii_N_embedding a), <- (ascii_N_embedding b). by rewrite H.
  - intros ->. apply Z.eqb_refl.
Qed.

(** ** Strings *)

Lemma strEqb_eq a b : strEqb a b = true <-> a = b.
Proof.
  revert b. induction a as [|x a IH]; intros [|y b]; simpl; try easy.
  rewrite andb_true_iff, charEqb_eq, IH. split.
  - by intros [-> ->].
  - intros [= -> ->]. done.
Qed.

Lemma startsWith_spec s p : startsWith s p = true <-> exists r, s = p ++ r.
Proof.
  revert s. induction p as [|x p IH]; intros s; simpl.
  - split; [ intros _; by exists s | done ].
  - destruct s as [|y s].
    + split; [ done | by intros [r [=]] ].
    + rewrite andb_true_iff, charEqb_eq, IH. split.
      * intros [-> [r ->]]. by exists r.
      * intros [r [= -> ->]]. split; [ done | by exists r ].
Qed.

Lemma includes_spec s p :
  includes s p = true <-> exists a b, s = a ++ p ++ b.
Proof.
  induction s as [|y s IH]; simpl.
  - rewrite orb_false_r, startsWith_spec. split.
    + intros [r H]. by exists [], r.
    + intros (a & b & H). destruct a as [|? a]; [ by exists b | done ].
  - rewrite orb_true_iff, startsWith_spec, IH. split.
    + intros [[r H] | (a & b & ->)].
      * by exists [], r.
      * by exists (y :: a), b.
    + intros (a & b & H). destruct a as [|z a].
      * left. by exists b.
      * right. injection H as -> ->. by exists a, b.
Qed.

Lemma includes_In s p c : includes s p = true -> In c p -> In c s.
Proof.
  rewrite includes_spec. intros (a & b & ->) Hc.
  apply in_or_app. right. apply in_or_app. by left.
Qed.

Lemma startsWith_length s p :
  startsWith s p = true -> (length p <= length s)%nat.
Proof. rewrite startsWith_spec. intros [r ->]. rewrite length_app. lia. Qed.

Lemma includes_length s p :
  includes s p = true -> (length p <= length s)%nat.
Proof.
  rewrite includes_spec. intros (a & b & ->). rewrite !length_app. lia.
Qed.

Lemma strEqb_startsWith s p : strEqb s p = true -> startsWith s p = true.
Proof.
  rewrite strEqb_eq, startsWith_spec. intros ->. exists [].
  by rewrite app_nil_r.
Qed.

Lemma startsWith_app s p q :
  startsWith s (p ++ q) = true -> startsWith s p = true.
Proof.
  rewrite !startsWith_spec. intros [r ->]. exists (q ++ r).
  by rewrite app_assoc.
Qed.

Lemma startsWith_cons s p x y :
  startsWith (y :: s) (x :: p) = charEqb x y && startsWith s p.
Proof. reflexivity. Qed.

(** a subject and a literal that differ in their first code unit *)
Lemma strEqb_first s p c x :
  head s = Some c -> head p = Some x -> charEqb c x = false ->
  strEqb s p = false.
Proof.
  destruct s, p; simpl; try done. intros [= ->] [= ->] ->. done.
Qed.

Lemma startsWith_first s p c x :
  head s = Some c -> head p = Some x -> charEqb x c = false ->
  startsWith s p = false.
Proof.
  destruct s, p; simpl; try done. intros [= ->] [= ->] ->. done.
Qed.

Lemma matchLitCI_first s p c x :
  head s = Some c -> head p = Some x ->
  charEqb (Canonicalize x) (Canonicalize c) = false ->
  matchLitCI p s = None.
Proof.
  destruct s, p; simpl; try done. intros [= ->] [= ->] ->. done.
Qed.

(** ** Skipping a class, trimming *)

Lemma skipClass_split cls s :
  exists pre, s = pre ++ skipClass cls s /\ forallb cls pre = true.
Proof.
  induction s as [|c s (pre & IH1 & IH2)]; simpl.
  - by exists [].
  - destruct (cls c) eqn:E.
    + exists (c :: pre). simpl. rewrite E, IH2. split; [ by f_equal | done ].
    + by exists [].
Qed.

Lemma skipClass_head cls s c r : skipClass cls s = c :: r -> cls c = false.
Proof.
  induction s as [|x s IH]; simpl; [ done | ].
  destruct (cls x) eqn:E; [ done | ]. by intros [= -> ->].
Qed.

Lemma skipClass_fix cls s :
  from_option cls false (head s) = false -> skipClass cls s = s.
Proof. destruct s as [|c s]; simpl; [ done | ]. by intros ->. Qed.

Lemma skipClass_idem cls s : skipClass cls (skipClass cls s) = skipClass cls s.
Proof.
  apply skipClass_fix. destruct (skipClass cls s) as [|c r] eqn:E; [ done | ].
  simpl. by apply skipClass_head in E.
Qed.

Lemma skipClass_snoc cls s c :
  cls c = false -> skipClass cls (s ++ [c]) = skipClass cls s ++ [c].
Proof.
  intros Hc. induction s as [|x s IH]; simpl.
  - by rewrite Hc.
  - by destruct (cls x).
Qed.

Lemma skipClass_forallb cls (P : ascii -> bool) s :
  forallb P s = true -> forallb P (skipClass cls s) = true.
Proof.
  destruct (skipClass_split cls s) as (pre & H & _). intros HP.
  rewrite H, forallb_app in HP. by apply andb_true_iff in HP as [_ ?].
Qed.

Lemma trimEnd_forallb (P : ascii -> bool) s :
  forallb P s = true -> forallb P (trimEnd s) = true.
Proof.
  intros H. unfold trimEnd, trimStart. rewrite forallb_forall in *.
  intros c Hc. apply in_rev in Hc.
  assert (Hall : forallb P (rev s) = true).
  { apply forallb_forall. intros x Hx. apply H. by apply in_rev. }
  apply (skipClass_forallb isWhiteSpace) in Hall.
  rewrite forallb_forall in Hall. by apply Hall.
Qed.

Lemma trim_forallb (P : ascii -> bool) s :
  forallb P s = true -> forallb P (trim s) = true.
Proof.
  intros H. unfold trim. apply trimEnd_forallb.
  by apply skipClass_forallb.
Qed.

(** a trimmed string begins with a code unit that is no white space *)
Lemma trim_head s c r : trim s = c :: r -> isWhiteSpace c = false.
Proof.
  unfold trim, trimEnd, trimStart.
  destruct (skipClass isWhiteSpace s) as [|x u] eqn:E; [ done | ].
  pose proof (skipClass_head _ _ _ _ E) as Hx.
  simpl rev. rewrite skipClass_snoc by done. rewrite rev_app_distr. simpl.
  by intros [= <- _].
Qed.

Lemma trimEnd_idem s : trimEnd (trimEnd s) = trimEnd s.
Proof.
  unfold trimEnd, trimStart. by rewrite rev_involutive, skipClass_idem.
Qed.

Lemma trim_idem s : trim (trim s) = trim s.
Proof.
  unfold trim at 1. unfold trimStart.
  rewrite skipClass_fix.
  - unfold trim. apply trimEnd_idem.
  - destruct (trim s) as [|c r] eqn:E; [ done | ]. simpl.
    by apply trim_head in E.
Qed.

Lemma trim_skip_ws s : trim (skipClass isWhiteSpace s) = trim s.
Proof. unfold trim, trimStart. by rewrite skipClass_idem. Qed.

(** ** Lower case *)

Lemma lowerChar_facts c :
  Bool.eqb (isWhiteSpace (lowerChar c)) (isWhiteSpace c)
  && charEqb (lowerChar (lowerChar c)) (lowerChar c) = true.
Proof. revert c. by_chars. Qed.

Lemma lowerChar_ws c : isWhiteSpace (lowerChar c) = isWhiteSpace c.
Proof.
  pose proof (lowerChar_facts c) as H. apply andb_true_iff in H as [H _].
  by apply Bool.eqb_prop in H.
Qed.

Lemma lowerChar_idem c : lowerChar (lowerChar c) = lowerChar c.
Proof.
  pose proof (lowerChar_facts c) as H. apply andb_true_iff in H as [_ H].
  by apply charEqb_eq in H.
Qed.

Lemma toLowerCase_idem s : toLowerCase (toLowerCase s) = toLowerCase s.
Proof.
  unfold toLowerCase. rewrite map_map. apply map_ext. apply lowerChar_idem.
Qed.

Lemma toLowerCase_skip_ws s :
  skipClass isWhiteSpace (toLowerCase s)
  = toLowerCase (skipClass isWhiteSpace s).
Proof.
  induction s as [|c s IH]; simpl; [ done | ].
  rewrite lowerChar_ws. by destruct (isWhiteSpace c).
Qed.

Lemma toLowerCase_rev s : rev (toLowerCase s) = toLowerCase (rev s).
Proof. unfold toLowerCase. by rewrite map_rev. Qed.

Lemma toLowerCase_trim s : trim (toLowerCase s) = toLowerCase (trim s).
Proof.
  unfold trim, trimEnd, trimStart.
  by rewrite toLowerCase_skip_ws, toLowerCase_rev, toLowerCase_skip_ws,
    toLowerCase_rev.
Qed.

(** a literal without capitals matches under the [i] flag exactly where
    the lower-cased subject starts with it *)
Lemma lower_canon x y :
  implb (plainLit x)
    (Bool.eqb (charEqb x (lowerChar y))
              (charEqb (Canonicalize x) (Canonicalize y))) = true.
Proof. revert x y. by_chars. Qed.

Lemma matchLitCI_lower p s :
  forallb plainLit p = true ->
  matchLitCI p s =
  if startsWith (toLowerCase s) p then Some (drop (length p) s) else None.
Proof.
  revert s. induction p as [|x p IH]; intros s Hp; simpl.
  - by rewrite drop_0.
  - apply andb_true_iff in Hp as [Hx Hp].
    destruct s as [|y s]; simpl; [ done | ].
    pose proof (lower_canon x y) as H. rewrite Hx in H. simpl in H.
    apply Bool.eqb_prop in H. rewrite <- H.
    destruct (charEqb x (lowerChar y)); simpl; [ by apply IH | done ].
Qed.

(** ** The classifier on arithmetic *)

(** no code unit of an arithmetic expression is a letter, in either case
    and under either normalisation *)
Lemma math_not_letter c x :
  implb (isMathChar c && (isLowerAZ x || isUpperAZ x))
    (negb (charEqb (lowerChar c) x) && negb (charEqb x (lowerChar c))
     && negb (charEqb x c)
     && negb (charEqb (Canonicalize x) (Canonicalize c))) = true.
Proof. revert c x. by_chars. Qed.

Lemma math_first_facts c x :
  isMathChar c = true ->
  isLowerAZ x || isUpperAZ x = true ->
  charEqb (lowerChar c) x = false /\ charEqb x (lowerChar c) = false
  /\ charEqb x c = false
  /\ charEqb (Canonicalize x) (Canonicalize c) = false.
Proof.
  intros Hc Hx.
  pose proof (math_not_letter c x) as H. rewrite Hc, Hx in H. simpl in H.
  repeat (apply andb_true_iff in H as [H ?]).
  repeat split; by apply negb_true_iff.
Qed.

(** The rules that begin with a letter, on a subject that begins with a
    code unit of an arithmetic expression. *)
Section MathFirst.
Variables (c : ascii) (s : jsstring).
Hypothesis Hc : isMathChar c = true.

Ltac lit_first :=
  repeat first
    [ erewrite strEqb_first;
        [ | reflexivity | reflexivity | by apply (math_first_facts c) ]
    | erewrite startsWith_first;
        [ | reflexivity | reflexivity | by apply (math_first_facts c) ]
    | erewrite matchLitCI_first;
        [ | reflexivity | reflexivity | by apply (math_first_facts c) ] ].

Lemma isQuitCommand_math : isQuitCommand (toLowerCase (c :: s)) = false.
Proof. unfold isQuitCommand. by lit_first. Qed.

Lemma isSwitchCommand_math : isSwitchCommand (toLowerCase (c :: s)) = false.
Proof. unfold isSwitchCommand. by lit_first. Qed.

Lemma isRecentCommand_math : isRecentCommand (toLowerCase (c :: s)) = false.
Proof. unfold isRecentCommand. by lit_first. Qed.

Lemma urlPattern_math_first : urlPattern (c :: s) = matchDomain (c :: s).
Proof. unfold urlPattern, matchScheme. by lit_first. Qed.

Lemma localhostPattern_math : localhostPattern (c :: s) = false.
Proof. unfold localhostPattern. by lit_first. Qed.

End MathFirst.

Lemma matchAltCI_first k ps x r :
  forallb (fun p => from_option (fun a => isLowerAZ a || isUpperAZ a) false
                      (head p)) ps = true ->
  isMathChar x = true ->
  matchAltCI ps k (x :: r) = None.
Proof.
  intros Hps Hx. induction ps as [|p ps IH]; simpl; [ done | ].
  simpl in Hps. apply andb_true_iff in Hps as [Hp Hps].
  destruct p as [|a p]; [ done | ]. simpl in Hp.
  pose proof (math_not_letter x a) as H. rewrite Hx, Hp in H. simpl in H.
  apply andb_true_iff in H as [_ H]. apply negb_true_iff in H.
  simpl. rewrite H. simpl. by apply IH.
Qed.

(** every listed top-level domain begins with a letter *)
Lemma tlds_math r :
  forallb isMathChar r = true -> matchAltCI tlds Some r = None.
Proof.
  destruct r as [|x r]; intros H.
  - vm_compute. reflexivity.
  - simpl in H. apply andb_true_iff in H as [Hx _].
    apply matchAltCI_first; [ vm_compute; reflexivity | done ].
Qed.

Lemma matchDomain_math s :
  forallb isMathChar s = true -> matchDomain s = false.
Proof.
  intros H. unfold matchDomain. destruct s as [|c s]; [ done | ].
  apply (skipClass_forallb isDomainChar) in H.
  destruct (skipClass isDomainChar (c :: s)) as [|d r];
    [ apply andb_false_r | ].
  simpl in H. apply andb_true_iff in H as [_ Hr].
  rewrite (tlds_math r Hr). simpl. by rewrite !andb_false_r.
Qed.

Lemma includes_math s p x :
  forallb isMathChar s = true -> In x p -> isMathChar x = false ->
  includes s p = false.
Proof.
  intros Hs Hx Hm. destruct (includes s p) eqn:E; [ | done ].
  pose proof (includes_In _ _ _ E Hx) as Hin.
  rewrite forallb_forall in Hs. apply Hs in Hin. congruence.
Qed.

Lemma isUrl_math s : forallb isMathChar s = true -> isUrl s = false.
Proof.
  intros H. unfold isUrl.
  rewrite (includes_math s (str "://") ":") by (done || (vm_compute; tauto)).
  destruct s as [|c s]; [ done | ].
  pose proof H as H'. simpl in H'. apply andb_true_iff in H' as [Hc _].
  by rewrite urlPattern_math_first, localhostPattern_math, matchDomain_math.
Qed.

Lemma isChatCommand_math s :
  forallb isMathChar s = true -> isChatCommand (toLowerCase s) = false.
Proof.
  intros H. unfold isChatCommand.
  destruct s as [|c [|c2 s]];
    [ done | cbn; by rewrite !andb_false_r | ].
  simpl in H. apply andb_true_iff in H as [_ H].
  apply andb_true_iff in H as [H2 _].
  change (str "/chat") with ("/"%char :: str "chat").
  change (str "/ai") with ("/"%char :: str "ai").
  unfold toLowerCase. simpl map. rewrite !startsWith_cons.
  pose proof (math_first_facts c2 "c" H2 eq_refl) as (_ & Hc & _).
  pose proof (math_first_facts c2 "a" H2 eq_refl) as (_ & Ha & _).
  rewrite (startsWith_first _ (str "chat") (lowerChar c2) "c") by done.
  rewrite (startsWith_first _ (str "ai") (lowerChar c2) "a") by done.
  by rewrite !andb_false_r.
Qed.

(** the outer condition of the path rule adds nothing to the inner one *)
Lemma isPath_eq s :
  isPath s = (2 <? Z.of_nat (length s)) && hasSeparator s.
Proof.
  unfold isPath, hasSeparator.
  destruct (pathPattern s), (includes s (str "\")), (includes s (str "/")),
    (2 <? Z.of_nat (length s)); reflexivity.
Qed.

Lemma hasSeparator_math s :
  forallb isMathChar s = true -> hasSeparator s = includes s (str "/").
Proof.
  intros H. unfold hasSeparator.
  by rewrite (includes_math s (str "\") "\") by (done || (vm_compute; tauto)).
Qed.

Lemma detectIntent_value_trimmed s :
  trim (value (detectIntent s)) = value (detectIntent s).
Proof.
  unfold detectIntent. cbv zeta. repeat case_match; simpl; apply trim_idem.
Qed.

(** ** The classifier: claims C1 to C4, C9 and C10 *)

(** C1 (as amended).  Every input that consists solely of digits, the
    operators + - * /, parentheses, periods and white space, whose trimmed
    form is not empty and is not taken by the path rule (a "/" in a trimmed
    form of more than two code units), is classified Calculate with
    confidence 0.85 and the trimmed input as value. *)
Theorem arithmetic_is_calculate (input : jsstring) :
  forallb isMathChar input = true ->
  trim input <> [] ->
  (2 <? Z.of_nat (length (trim input))) && includes (trim input) (str "/")
    = false ->
  detectIntent input = mkIntent Calculate (trim input) 0.85.
Proof.
  intros Hall Hne Hp. apply trim_forallb in Hall.
  unfold detectIntent. destruct (trim input) as [|c t] eqn:Et; [ done | ].
  pose proof Hall as Hc. simpl in Hc. apply andb_true_iff in Hc as [Hc _].
  rewrite isQuitCommand_math, isSwitchCommand_math, isRecentCommand_math
    by done.
  rewrite isUrl_math, isChatCommand_math by done.
  rewrite isPath_eq, hasSeparator_math, Hp by done.
  unfold isCalculation, mathPattern. by rewrite Hall.
Qed.

Lemma arithmetic_is_calculate_witness :
  forallb isMathChar (str "2+2*3") = true /\
  detectIntent (str "2+2*3") = mkIntent Calculate (str "2+2*3") 0.85.
Proof.
  split; [ reflexivity | ].
  apply (arithmetic_is_calculate (str "2+2*3")).
  - reflexivity.
  - vm_compute. discriminate.
  - reflexivity.
Defined.

(** C1 as stated fails: the division "1/2" is pure arithmetic and is
    classified Path. *)
Lemma arithmetic_division_is_path :
  forallb isMathChar (str "1/2") = true /\
  detectIntent (str "1/2") = mkIntent Path (str "1/2") 0.9.
Proof. split; vm_compute; reflexivity. Qed.

(** An input of white space only trims to the empty string, which the
    math pattern does not match: it falls through to the App default. *)
Example whitespace_only_is_app :
  forallb isMathChar (str "   ") = true /\
  detectIntent (str "   ") = mkIntent App [] 0.6.
Proof. split; vm_compute; reflexivity. Qed.

(** C2 (as amended).  For every input that none of the rules Quit, Switch,
    Recent, Url and Chat takes, classify returns Path exactly when the
    trimmed input contains a path separator and has more than two code
    units, whatever it starts with; a Path intent has confidence 0.9 and
    the trimmed input as value. *)
Theorem path_classification (input : jsstring) :
  type (detectIntent input) <> Quit ->
  type (detectIntent input) <> Switch ->
  type (detectIntent input) <> Recent ->
  type (detectIntent input) <> Url ->
  type (detectIntent input) <> Chat ->
  (type (detectIntent input) = Path <->
   hasSeparator (trim input) = true /\ (2 < length (trim input))%nat) /\
  (type (detectIntent input) = Path ->
   value (detectIntent input) = trim input /\
   confidence (detectIntent input) = 0.9%Q).
Proof.
  unfold detectIntent. cbv zeta.
  destruct (isQuitCommand _); [ done | ].
  destruct (isSwitchCommand _); [ done | ].
  destruct (isRecentCommand _); [ done | ].
  destruct (isUrl _); [ done | ].
  destruct (isChatCommand _); [ done | ].
  intros _ _ _ _ _. rewrite isPath_eq.
  destruct (2 <? Z.of_nat (length (trim input))) eqn:El;
    [ apply Z.ltb_lt in El | apply Z.ltb_ge in El ];
    destruct (hasSeparator (trim input)) eqn:Es; simpl.
  - split; [ split; [ intros _; split; [ done | lia ] | done ] | done ].
  - split; [ | repeat case_match; done ].
    split; [ repeat case_match; done | intros [? _]; done ].
  - split; [ | repeat case_match; done ].
    split; [ repeat case_match; done | intros [_ ?]; lia ].
  - split; [ | repeat case_match; done ].
    split; [ repeat case_match; done | intros [? _]; done ].
Qed.

Lemma path_classification_witness :
  type (detectIntent (str "C:\Users\test\file.txt")) = Path /\
  value (detectIntent (str "C:\Users\test\file.txt"))
    = str "C:\Users\test\file.txt" /\
  confidence (detectIntent (str "C:\Users\test\file.txt")) = 0.9%Q.
Proof.
  destruct (path_classification (str "C:\Users\test\file.txt"))
    as [Hiff Hval]; try (vm_compute; discriminate).
  assert (Hp : type (detectIntent (str "C:\Users\test\file.txt")) = Path).
  { apply Hiff. split; [ reflexivity | vm_compute; lia ]. }
  split; [ exact Hp | ]. destruct (Hval Hp) as [Hv Hc].
  split; [ rewrite Hv; reflexivity | exact Hc ].
Defined.

(** C2 as stated fails: "a/b" starts with none of the prefixes of the path
    pattern, no earlier rule takes it, and it is classified Path. *)
Lemma path_without_prefix :
  pathPattern (trim (str "a/b")) = false /\
  detectIntent (str "a/b") = mkIntent Path (str "a/b") 0.9.
Proof. split; vm_compute; reflexivity. Qed.

Lemma lower_slash c :
  implb (charEqb "/" (lowerChar c)) (charEqb "/" c) = true.
Proof. revert c. by_chars. Qed.

(** C3 (as amended).  Every input whose trimmed form starts with "/chat"
    or "/ai", in any case, and does not contain "://" is classified Chat
    with confidence 1.0; when the prefix is "/chat", the value is the rest
    of the trimmed input after the prefix, trimmed. *)
Theorem chat_classification (input : jsstring) :
  startsWith (toLowerCase (trim input)) (str "/chat") = true
  \/ startsWith (toLowerCase (trim input)) (str "/ai") = true ->
  includes (trim input) (str "://") = false ->
  type (detectIntent input) = Chat /\
  confidence (detectIntent input) = 1.0%Q /\
  (startsWith (toLowerCase (trim input)) (str "/chat") = true ->
   value (detectIntent input) = trim (drop 5 (trim input))).
Proof.
  intros H Hurl. unfold detectIntent.
  destruct (trim input) as [|c t] eqn:Et.
  { by destruct H. }
  assert (c = "/"%char) as ->.
  { assert (Hc : charEqb "/" (lowerChar c) = true).
    { destruct H as [H | H]; simpl in H;
        by apply andb_true_iff in H as [? _]. }
    pose proof (lower_slash c) as Hl. rewrite Hc in Hl.
    by apply charEqb_eq in Hl. }
  rewrite isQuitCommand_math, isSwitchCommand_math, isRecentCommand_math
    by done.
  unfold isUrl.
  rewrite Hurl, urlPattern_math_first, localhostPattern_math by done.
  replace (matchDomain ("/"%char :: t)) with false by reflexivity.
  simpl orb.
  assert (Hchat : isChatCommand (toLowerCase ("/"%char :: t)) = true).
  { unfold isChatCommand. apply orb_true_iff. tauto. }
  rewrite Hchat. split; [ done | split; [ done | ] ].
  intros Hs. cbv [value]. unfold replacePrefix, matchAltCI.
  rewrite matchLitCI_lower by reflexivity. rewrite Hs. simpl.
  apply trim_skip_ws.
Qed.

Lemma chat_classification_witness :
  detectIntent (str "/chat open my project")
  = mkIntent Chat (str "open my project") 1.0.
Proof.
  destruct (chat_classification (str "/chat open my project")
              (or_introl eq_refl) eq_refl) as (Ht & Hc & Hv).
  specialize (Hv eq_refl).
  destruct (detectIntent (str "/chat open my project")) as [ty v cf].
  simpl in *. subst. reflexivity.
Defined.

(** C3 as stated fails: an input that starts with "/chat" and contains
    "://" is taken by the Url rule, which comes first. *)
Lemma chat_prefix_with_url :
  startsWith (toLowerCase (trim (str "/chat see http://x.com")))
    (str "/chat") = true /\
  detectIntent (str "/chat see http://x.com")
  = mkIntent Url (str "/chat see http://x.com") 0.95.
Proof. split; vm_compute; reflexivity. Qed.

(** The replacement in the Chat rule names "/chat" only: after "/ai" the
    value keeps the prefix. *)
Example chat_ai_prefix_kept :
  detectIntent (str "/ai open my project")
  = mkIntent Chat (str "/ai open my project") 1.0.
Proof. vm_compute. reflexivity. Qed.

(** C4 (as amended).  Every input whose trimmed text, in lower case, is
    "quit" or starts with "quit " (the word and a space) is classified
    Quit with confidence 1.0, and the value is the rest of the trimmed
    text after the word, trimmed; the rules that follow, Url among them,
    are not consulted. *)
Theorem quit_classification (input : jsstring) :
  toLowerCase (trim input) = str "quit"
  \/ (exists r, toLowerCase (trim input) = str "quit " ++ r) ->
  detectIntent input = mkIntent Quit (trim (drop 4 (trim input))) 1.0.
Proof.
  intros H. unfold detectIntent.
  assert (Hq : isQuitCommand (toLowerCase (trim input)) = true).
  { apply orb_true_iff. destruct H as [H | H].
    - left. by apply strEqb_eq.
    - right. by apply startsWith_spec. }
  rewrite Hq. f_equal.
  assert (Hp : startsWith (toLowerCase (trim input)) (str "quit") = true).
  { apply orb_true_iff in Hq as [Hq | Hq].
    - by apply strEqb_startsWith.
    - by apply (startsWith_app _ (str "quit") (str " ")). }
  unfold replacePrefix, matchAltCI.
  rewrite matchLitCI_lower by reflexivity. rewrite Hp. simpl.
  apply trim_skip_ws.
Qed.

Lemma quit_classification_witness :
  urlPattern (str "https://x.com") = true /\
  detectIntent (str "quit https://x.com")
  = mkIntent Quit (str "https://x.com") 1.0.
Proof.
  split; [ reflexivity | ].
  apply (quit_classification (str "quit https://x.com")).
  right. exists (str "https://x.com"). reflexivity.
Defined.

(** C4 as stated fails: "quit", a tab and a name match the pattern of the
    claim, and the input is classified App. *)
Lemma quit_tab_not_quit :
  quitPattern (trim (str "quit" ++ ["009"%char] ++ str "chrome")) = true /\
  detectIntent (str "quit" ++ ["009"%char] ++ str "chrome")
  = mkIntent App (str "quit" ++ ["009"%char] ++ str "chrome") 0.6.
Proof. split; vm_compute; reflexivity. Qed.

(** C9.  classify never returns Unknown: its result is one of the nine
    other variants. *)
Theorem never_unknown (input : jsstring) :
  type (detectIntent input) <> Unknown /\
  In (type (detectIntent input))
     [Path; App; Calculate; Search; Chat; Quit; Switch; Recent; Url].
Proof.
  unfold detectIntent. cbv zeta. repeat case_match; simpl; split; auto 10.
Qed.

(** the two branches that end [detectIntent]: an input that no rule takes
    is an App intent, with confidence 0.6 up to 50 code units and 0.4
    beyond *)
Lemma app_default_branches (input : jsstring) :
  isQuitCommand (toLowerCase (trim input)) = false ->
  isSwitchCommand (toLowerCase (trim input)) = false ->
  isRecentCommand (toLowerCase (trim input)) = false ->
  isUrl (trim input) = false ->
  isChatCommand (toLowerCase (trim input)) = false ->
  isPath (trim input) = false ->
  isCalculation (trim input) = false ->
  isOpenCommand (toLowerCase (trim input)) = false ->
  hasSearchKeywords (trim input) = false ->
  detectIntent input
  = mkIntent App (trim input)
      (if Z.of_nat (length (trim input)) <=? 50 then 0.6%Q else 0.4%Q).
Proof.
  intros Hq Hs Hr Hu Hc Hp Hm Ho Hk. unfold detectIntent.
  rewrite Hq, Hs, Hr, Hu, Hc, Hp, Hm, Ho, Hk. simpl.
  rewrite andb_false_r. by destruct (_ <=? _).
Qed.

(** C10.  classify of an input and classify of its trimmed form are the
    same intent: type, value and confidence. *)
Theorem classify_trim_insensitive (input : jsstring) :
  detectIntent input = detectIntent (trim input).
Proof. unfold detectIntent. by rewrite trim_idem. Qed.

(** ** Sorting *)

Lemma isNegative_spec q : isNegative q = true <-> (q < 0)%Q.
Proof.
  unfold isNegative, Qlt. rewrite Z.ltb_lt. simpl. lia.
Qed.

Lemma isNegative_inject z : isNegative (inject_Z z) = (z <? 0).
Proof. reflexivity. Qed.

(** [arraySort] with a comparator that agrees with a transitive order [R]:
    a negative result puts the first argument before the second in [R], any
    other result the second before the first. *)
Section Sorting.
Context {A : Type} (cmp : A -> A -> Q) (R : A -> A -> Prop).
Hypothesis R_trans : forall x y z, R x y -> R y z -> R x z.
Hypothesis cmp_before : forall x y, isNegative (cmp x y) = true -> R x y.
Hypothesis cmp_after : forall x y, isNegative (cmp x y) = false -> R y x.

Lemma insertSorted_perm x l : insertSorted cmp x l ≡ₚ x :: l.
Proof using Type.
  induction l as [|y l IH]; simpl; [ done | ].
  destruct (isNegative (cmp x y)); [ done | ].
  rewrite IH. apply Permutation_swap.
Qed.

Lemma arraySort_perm_from l placed :
  fold_left (fun placed x => insertSorted cmp x placed) l placed
  ≡ₚ placed ++ l.
Proof using Type.
  revert placed. induction l as [|x l IH]; intros placed; simpl.
  - by rewrite app_nil_r.
  - rewrite IH, insertSorted_perm.
    by rewrite (Permutation_middle placed l x).
Qed.

Lemma arraySort_perm l : arraySort cmp l ≡ₚ l.
Proof using Type. apply (arraySort_perm_from l []). Qed.

Lemma insertSorted_sorted x l :
  StronglySorted R l -> StronglySorted R (insertSorted cmp x l).
Proof.
  induction 1 as [|y l Hs IH Hy]; simpl.
  - repeat constructor.
  - destruct (isNegative (cmp x y)) eqn:E.
    + apply cmp_before in E. constructor; [ by constructor | ].
      constructor; [ done | ].
      eapply Forall_impl; [ exact Hy | ]. intros z Hz. by eapply R_trans.
    + apply cmp_after in E. constructor; [ done | ].
      rewrite insertSorted_perm. by constructor.
Qed.

Lemma arraySort_sorted l : StronglySorted R (arraySort cmp l).
Proof.
  unfold arraySort.
  assert (G : forall placed, StronglySorted R placed ->
            StronglySorted R
              (fold_left (fun placed x => insertSorted cmp x placed)
                 l placed)).
  { induction l as [|x l IH]; intros placed Hp; simpl; [ done | ].
    apply IH. by apply insertSorted_sorted. }
  apply G. constructor.
Qed.

End Sorting.

Lemma StronglySorted_map {A B} (f : A -> B) (R : B -> B -> Prop) l :
  StronglySorted (fun x y => R (f x) (f y)) l -> StronglySorted R (map f l).
Proof.
  induction 1 as [|x l Hs IH Hx]; simpl; constructor; [ done | ].
  apply Forall_forall. intros y Hy.
  apply list_elem_of_fmap in Hy as [z [-> Hz]].
  rewrite Forall_forall in Hx. by apply Hx.
Qed.

(** in a strongly sorted list the earlier of two elements is related to
    the later one *)
Lemma StronglySorted_lookup {A} (R : A -> A -> Prop) l i j x y :
  StronglySorted R l -> l !! i = Some x -> l !! j = Some y ->
  (i < j)%nat -> R x y.
Proof.
  intros Hs. revert i j.
  induction Hs as [|z l Hs IH Hz]; intros i j Hi Hj Hlt.
  - done.
  - destruct j as [|j]; [ lia | ]. simpl in Hj.
    destruct i as [|i]; simpl in Hi.
    + injection Hi as ->. rewrite Forall_forall in Hz. apply Hz.
      by eapply list_elem_of_lookup_2.
    + apply (IH i j); [ done | done | lia ].
Qed.

(** ** App ranking: claim C5 *)

Lemma lengthRatio_bounds a b :
  (length a <= length b)%nat -> (0 <= lengthRatio a b <= 1)%Q.
Proof.
  intros Hl. unfold lengthRatio.
  set (x := Z.of_nat (length a)). set (y := Z.max (Z.of_nat (length b)) 1).
  assert (Hx : 0 <= x <= y) by lia. assert (Hy : 0 < y) by lia.
  assert (Hy' : (inject_Z 0 < inject_Z y)%Q) by (rewrite <- Zlt_Qlt; lia).
  split.
  - apply Qle_shift_div_l; [ done | ]. rewrite Qmult_0_l.
    change 0%Q with (inject_Z 0). rewrite <- Zle_Qle. lia.
  - apply Qle_shift_div_r; [ done | ]. rewrite Qmult_1_l.
    rewrite <- Zle_Qle. lia.
Qed.

Lemma nameTier_range query name : 0 <= nameTier query name <= 3.
Proof. unfold nameTier. repeat case_match; lia. Qed.

(** the score of a name of one of the first three tiers *)
Lemma scoreApp_tier query words name :
  (nameTier query name = 0 ->
   scoreApp (toLowerCase query) words name = 10000%Q)
  /\ (nameTier query name = 1 ->
      (5000 <= scoreApp (toLowerCase query) words name <= 7000)%Q)
  /\ (nameTier query name = 2 ->
      (3000 <= scoreApp (toLowerCase query) words name <= 4000)%Q).
Proof.
  unfold scoreApp, nameTier. cbv zeta.
  destruct (strEqb _ _); [ repeat split; (done || lia) | ].
  destruct (startsWith _ _) eqn:Es.
  { apply startsWith_length in Es. apply lengthRatio_bounds in Es.
    repeat split; try lia; lra. }
  destruct (includes _ _) eqn:Ei; [ | repeat split; lia ].
  apply includes_length in Ei. apply lengthRatio_bounds in Ei.
  repeat split; try lia; lra.
Qed.

Lemma scoreApp_tier_lt query words a b :
  nameTier query a < nameTier query b -> nameTier query b <= 2 ->
  (0 < scoreApp (toLowerCase query) words b
     < scoreApp (toLowerCase query) words a)%Q.
Proof.
  intros Hlt Hb.
  destruct (scoreApp_tier query words a) as (Ha0 & Ha1 & _).
  destruct (scoreApp_tier query words b) as (_ & Hb1 & Hb2).
  pose proof (nameTier_range query a) as Ra.
  assert (Hcases : (nameTier query a = 0 /\ nameTier query b = 1)
                   \/ (nameTier query a = 0 /\ nameTier query b = 2)
                   \/ (nameTier query a = 1 /\ nameTier query b = 2)) by lia.
  destruct Hcases as [[Ea Eb] | [[Ea Eb] | [Ea Eb]]].
  - rewrite (Ha0 Ea). specialize (Hb1 Eb). lra.
  - rewrite (Ha0 Ea). specialize (Hb2 Eb). lra.
  - specialize (Ha1 Ea). specialize (Hb2 Eb). lra.
Qed.

Lemma Qltb_spec a b : Qltb a b = true <-> (a < b)%Q.
Proof.
  unfold Qltb. rewrite negb_true_iff. split.
  - intros H. apply Qnot_le_lt. intros Hle. apply Qle_bool_iff in Hle.
    congruence.
  - intros H. destruct (Qle_bool b a) eqn:E; [ | done ].
    apply Qle_bool_iff in E. lra.
Qed.

(** [searchApps] for a query without surrounding white space: the scored
    apps with a positive score, sorted by falling score, cut after some
    length. *)
Section Ranking.
Variables (query : jsstring) (limit : Z) (apps : list InstalledApp.t).
Hypothesis query_trimmed : trim query = query.

Lemma searchApps_prefix :
  exists n,
    searchApps query limit apps
    = map toSuggestion (take n (rankedApps (toLowerCase query) apps)).
Proof.
  unfold searchApps. rewrite query_trimmed.
  destruct (_ || _); [ by exists 0%nat | ].
  destruct (_ =? _); [ by exists 0%nat | ].
  cbv zeta. unfold slice0. cbv zeta.
  rewrite toLowerCase_trim, query_trimmed. eexists. reflexivity.
Qed.

Lemma rankedApps_descending :
  StronglySorted (fun a b => (snd b <= snd a)%Q)
    (rankedApps (toLowerCase query) apps).
Proof using Type.
  apply arraySort_sorted.
  - intros x y z ? ?. lra.
  - intros x y Hc. apply isNegative_spec in Hc. lra.
  - intros x y Hc.
    assert (~ (snd y - snd x < 0)%Q)
      by (rewrite <- isNegative_spec; congruence).
    lra.
Qed.

Lemma rankedApps_elem sa :
  sa ∈ rankedApps (toLowerCase query) apps <->
  exists app,
    app ∈ apps
    /\ sa = (app, scoreOf (toLowerCase query) app)
    /\ (0 < scoreOf (toLowerCase query) app)%Q.
Proof using Type.
  unfold rankedApps. rewrite arraySort_perm.
  rewrite list_elem_of_filter, list_elem_of_fmap. split.
  - intros [Hp (app & -> & Hin)]. exists app. simpl in Hp.
    by apply Qltb_spec in Hp.
  - intros (app & Hin & -> & Hp).
    split; [ by apply Qltb_spec | by exists app ].
Qed.

Lemma rankedApps_tier_order i j sa sb :
  rankedApps (toLowerCase query) apps !! i = Some sa ->
  rankedApps (toLowerCase query) apps !! j = Some sb ->
  nameTier query (InstalledApp.Name (fst sa))
    < nameTier query (InstalledApp.Name (fst sb)) ->
  nameTier query (InstalledApp.Name (fst sb)) <= 2 ->
  (i < j)%nat.
Proof using Type.
  intros Hi Hj Hlt Hb.
  assert (Ha' : sa ∈ rankedApps (toLowerCase query) apps)
    by (by eapply list_elem_of_lookup_2).
  assert (Hb' : sb ∈ rankedApps (toLowerCase query) apps)
    by (by eapply list_elem_of_lookup_2).
  apply rankedApps_elem in Ha' as (a & _ & -> & _).
  apply rankedApps_elem in Hb' as (b & _ & -> & _). simpl in *.
  pose proof (scoreApp_tier_lt query (splitWords (toLowerCase query)) _ _
                Hlt Hb) as Hs.
  destruct (decide (i < j)%nat) as [ | Hge ]; [ done | exfalso ].
  destruct (decide (i = j)) as [-> | Hne].
  - rewrite Hi in Hj. injection Hj as _ Heq. unfold scoreOf in Heq.
    rewrite Heq in Hs. lra.
  - assert (Hji : (j < i)%nat) by lia.
    pose proof (StronglySorted_lookup _ _ j i _ _ rankedApps_descending
                  Hj Hi Hji) as Hr.
    simpl in Hr. unfold scoreOf in Hr. lra.
Qed.

Lemma searchApps_tiers j b :
  searchApps query limit apps !! j = Some b ->
  nameTier query (Suggestion.name b) <= 2 ->
  (forall i a,
     searchApps query limit apps !! i = Some a ->
     nameTier query (Suggestion.name a) < nameTier query (Suggestion.name b) ->
     (i < j)%nat)
  /\ (forall app,
        In app apps ->
        nameTier query (InstalledApp.Name app)
          < nameTier query (Suggestion.name b) ->
        exists i a,
          (i < j)%nat /\ searchApps query limit apps !! i = Some a
          /\ Suggestion.name a = InstalledApp.Name app).
Proof.
  destruct searchApps_prefix as [n ->].
  intros Hj Hb.
  rewrite list_lookup_fmap in Hj.
  destruct (take n (rankedApps (toLowerCase query) apps) !! j) as [sb|] eqn:Ej;
    [ | done ].
  injection Hj as <-. simpl in *.
  apply lookup_take_Some in Ej as [Ej Hjn].
  split.
  - intros i a Hi Hlt. rewrite list_lookup_fmap in Hi.
    destruct (take n (rankedApps (toLowerCase query) apps) !! i)
      as [sa|] eqn:Ei; [ | done ].
    injection Hi as <-. simpl in Hlt.
    apply lookup_take_Some in Ei as [Ei _].
    by apply (rankedApps_tier_order i j sa sb).
  - intros app Hin Hlt.
    assert (Hb' : sb ∈ rankedApps (toLowerCase query) apps)
      by (by eapply list_elem_of_lookup_2).
    apply rankedApps_elem in Hb' as (b & _ & -> & _). simpl in *.
    pose proof (scoreApp_tier_lt query (splitWords (toLowerCase query)) _ _
                  Hlt Hb) as Hs.
    assert (Ha : (app, scoreOf (toLowerCase query) app)
                 ∈ rankedApps (toLowerCase query) apps).
    { apply rankedApps_elem. exists app.
      split; [ by apply list_elem_of_In | ].
      split; [ done | unfold scoreOf; lra ]. }
    apply list_elem_of_lookup_1 in Ha as [i Hi].
    assert (Hij : (i < j)%nat)
      by (by apply (rankedApps_tier_order i j _ _ Hi Ej)).
    exists i, (toSuggestion (app, scoreOf (toLowerCase query) app)).
    split; [ done | ]. split; [ | done ].
    rewrite list_lookup_fmap, lookup_take_lt by lia. by rewrite Hi.
Qed.

End Ranking.

(** C5.  In the ranking of the apps for the value of an App intent, a
    listed candidate of the tiers "equals the query", "starts with the
    query" and "contains the query" (names compared without regard to case)
    comes after every listed candidate of a better tier, and every
    installed app of a better tier is listed before it. *)
Theorem app_ranking_tiers (input : jsstring) (limit : Z)
    (apps : list InstalledApp.t) (j : nat) (b : Suggestion.t) :
  type (detectIntent input) = App ->
  searchApps (value (detectIntent input)) limit apps !! j = Some b ->
  nameTier (value (detectIntent input)) (Suggestion.name b) <= 2 ->
  (forall i a,
     searchApps (value (detectIntent input)) limit apps !! i = Some a ->
     nameTier (value (detectIntent input)) (Suggestion.name a)
       < nameTier (value (detectIntent input)) (Suggestion.name b) ->
     (i < j)%nat)
  /\ (forall app,
        In app apps ->
        nameTier (value (detectIntent input)) (InstalledApp.Name app)
          < nameTier (value (detectIntent input)) (Suggestion.name b) ->
        exists i a,
          (i < j)%nat
          /\ searchApps (value (detectIntent input)) limit apps !! i = Some a
          /\ Suggestion.name a = InstalledApp.Name app).
Proof.
  intros _. apply searchApps_tiers. apply detectIntent_value_trimmed.
Qed.

Lemma app_ranking_tiers_witness :
  type (detectIntent (str "code")) = App /\
  exists i a,
    (i < 2)%nat
    /\ searchApps (value (detectIntent (str "code"))) 10 sampleApps !! i
       = Some a
    /\ Suggestion.name a = str "Code".
Proof.
  split; [ reflexivity | ].
  destruct (searchApps (value (detectIntent (str "code"))) 10 sampleApps
              !! 2%nat) as [b|] eqn:Eb; [ | vm_compute in Eb; discriminate ].
  assert (Hb : Suggestion.name b = str "Visual Studio Code").
  { vm_compute in Eb. injection Eb as <-. reflexivity. }
  destruct (app_ranking_tiers (str "code") 10 sampleApps 2 b eq_refl Eb)
    as [_ Hin].
  - rewrite Hb. vm_compute. discriminate.
  - apply (Hin (sampleApp "Code")).
    + right. right. left. reflexivity.
    + rewrite Hb. vm_compute. reflexivity.
Defined.

(** ** Quit and switch suggestions: claim C6 *)

Lemma searchTermOf_lower v :
  toLowerCase (searchTermOf v) = searchTermOf v.
Proof.
  unfold searchTermOf. by rewrite <- toLowerCase_trim, toLowerCase_idem.
Qed.

Section RunningApps.
Context `{Collator}.

Lemma alphabetical_trans a b c :
  alphabetical a b -> alphabetical b c -> alphabetical a c.
Proof. unfold alphabetical. apply localeCompare_trans. Qed.

Lemma processOrder_trans term a b c :
  processOrder term a b -> processOrder term b c -> processOrder term a c.
Proof.
  unfold processOrder. intros [Hab | [Hab Ha]] [Hbc | [Hbc Hb]].
  - left. lia.
  - left. lia.
  - left. lia.
  - right. split; [ lia | ]. intros H2.
    eapply alphabetical_trans; [ apply Ha | apply Hb ]; lia.
Qed.

Ltac tier_cases :=
  repeat case_match;
  first [ left; lia | right; split; [ done | lia ] ].

Lemma compareByTerm_order term a b :
  toLowerCase term = term ->
  (isNegative (compareByTerm term (toLowerCase a) (toLowerCase b)) = true ->
   processOrder term a b)
  /\ (isNegative (compareByTerm term (toLowerCase a) (toLowerCase b))
      = false -> processOrder term b a).
Proof.
  intros Ht. unfold compareByTerm, processOrder, processTier, alphabetical.
  rewrite Ht.
  destruct (strEqb (toLowerCase a) term);
    [ split; [ intros _ | done ]; tier_cases | ].
  destruct (strEqb (toLowerCase b) term);
    [ split; [ done | intros _ ]; tier_cases | ].
  destruct (startsWith (toLowerCase a) term);
    [ split; [ intros _ | done ]; tier_cases | ].
  destruct (startsWith (toLowerCase b) term);
    [ split; [ done | intros _ ]; tier_cases | ].
  rewrite isNegative_inject.
  split; intros Hc; right; (split; [ done | intros _ ]).
  - apply Z.ltb_lt in Hc. lia.
  - apply Z.ltb_ge in Hc. by apply localeCompare_total.
Qed.

Lemma filter_names term (apps : list RunningApp.t) :
  map RunningApp.name
    (filter (fun app =>
               includes (toLowerCase (RunningApp.name app)) term = true) apps)
  = filter (fun n => includes (toLowerCase n) term = true)
      (map RunningApp.name apps).
Proof using Type.
  induction apps as [|a apps IH]; [ done | ].
  simpl. rewrite !filter_cons.
  destruct (decide (includes (toLowerCase (RunningApp.name a)) term = true));
    simpl; by rewrite IH.
Qed.

Lemma filterAndSortApps_lists v apps :
  listsProcesses (searchTermOf v) apps
    (map RunningApp.name (filterAndSortApps (searchTermOf v) apps)).
Proof.
  pose proof (searchTermOf_lower v) as Ht.
  unfold listsProcesses, filterAndSortApps. cbv zeta.
  destruct (truthyString (searchTermOf v)); split.
  - rewrite arraySort_perm, Ht. by rewrite filter_names.
  - apply StronglySorted_map.
    apply arraySort_sorted
      with (R := fun a b => processOrder (searchTermOf v) (RunningApp.name a)
                              (RunningApp.name b)).
    + intros x y z. apply processOrder_trans.
    + intros x y. by apply compareByTerm_order.
    + intros x y. by apply compareByTerm_order.
  - by rewrite arraySort_perm.
  - apply StronglySorted_map.
    apply arraySort_sorted
      with (R := fun a b => alphabetical (RunningApp.name a)
                              (RunningApp.name b)).
    + intros x y z. apply alphabetical_trans.
    + intros x y. rewrite isNegative_inject. unfold alphabetical. lia.
    + intros x y. rewrite isNegative_inject. intros Hc.
      apply Z.ltb_ge in Hc. by apply localeCompare_total.
Qed.

(** C6.  For the Quit and the Switch intent the processes of the
    suggestion list are, with a search term, exactly the running processes
    whose names contain the term without regard to case, the name equal to
    the term first, then the names that start with it, then the remaining
    ones in alphabetical order; without a term they are all running
    processes in alphabetical order. *)
Theorem running_app_suggestions (intentValue : jsstring)
    (apps : list RunningApp.t) :
  listsProcesses (searchTermOf intentValue) apps
    (map Suggestion.path (quitSuggestions intentValue apps))
  /\ listsProcesses (searchTermOf intentValue) apps
       (map Suggestion.path (switchSuggestions intentValue apps)).
Proof.
  unfold quitSuggestions, switchSuggestions. rewrite !map_map. simpl.
  split; apply filterAndSortApps_lists.
Qed.

End RunningApps.

(** the quit list for "cod" over four running processes, under the
    collation by code units *)
Example quit_suggestions_run :
  map Suggestion.name
    (quitSuggestions (str "Cod ")
       [RunningApp.mk (str "notepad") []; RunningApp.mk (str "vscode") [];
        RunningApp.mk (str "Codex") []; RunningApp.mk (str "cod") []])
  = [str "quit cod"; str "quit Codex"; str "quit vscode"].
Proof. vm_compute. reflexivity. Qed.

(** ** The cursor: claim C8 *)

Lemma handle_cursorInBounds e st :
  cursorInBounds st -> cursorInBounds (Presenter.handle e st).
Proof.
  unfold cursorInBounds. destruct st as [l sh i]. simpl. intros H.
  assert (Hl : l = [] -> Z.of_nat (length l) = 0) by (by intros ->).
  destruct e; unfold Presenter.handle, Presenter.listOpen; simpl;
    repeat case_match; simpl; auto;
    repeat match goal with
           | H : _ && _ = true |- _ => apply andb_true_iff in H as [? ?]
           | H : (_ <? _) = true |- _ => apply Z.ltb_lt in H
           | H : (_ <? _) = false |- _ => apply Z.ltb_ge in H
           | H : (_ <=? _) = true |- _ => apply Z.leb_le in H
           end;
    try (right; destruct H as [H | H]; [ apply Hl in H | ]; lia).
Qed.

Lemma run_cursorInBounds events st :
  cursorInBounds st -> cursorInBounds (Presenter.run events st).
Proof.
  revert st. induction events as [|e events IH]; intros st H; simpl;
    [ done | ].
  apply IH. by apply handle_cursorInBounds.
Qed.

(** C8.  After any sequence of events the cursor is inside a non-empty
    suggestion list; ArrowUp at index 0 leaves it at 0, ArrowDown at the
    last index leaves it there, and a fetch that resolves with a non-empty
    list replaces the list and puts the cursor at 0. *)
Theorem cursor_bounds :
  (forall events, cursorInBounds (Presenter.run events Presenter.initial)) /\
  (forall l sh,
     Presenter.selectedSuggestionIndex
       (Presenter.handle Presenter.ArrowUp (Presenter.mkState l sh 0)) = 0) /\
  (forall l sh,
     Presenter.selectedSuggestionIndex
       (Presenter.handle Presenter.ArrowDown
          (Presenter.mkState l sh (Z.of_nat (length l) - 1)))
     = Z.of_nat (length l) - 1) /\
  (forall x result st,
     Presenter.handle (Presenter.Resolved (x :: result)) st
     = Presenter.mkState (x :: result) true 0).
Proof.
  split; [ | split; [ | split ] ].
  - intros events. apply run_cursorInBounds. by left.
  - intros l sh. unfold Presenter.handle. by case_match.
  - intros l sh. unfold Presenter.handle. case_match; [ | done ].
    simpl. by rewrite Z.ltb_irrefl.
  - done.
Qed.

(** ** Pending confirmations: claim C7 *)

(** C7.  Declining a pending confirmation performs no operation, answers
    that the operation was cancelled and removes the id from the map of
    pending confirmations; a following request with the same id is answered
    404, "Confirmation not found or expired", and performs no operation
    either. *)
Theorem decline_confirmation (w : Server.World) (m : Server.Pending)
    (id : jsstring) (c : Server.Confirmation) (answer : Server.JsValue)
    (p : option jsstring) :
  m !! id = Some c ->
  id <> [] ->
  declines answer ->
  Server.confirm w (Server.mkRequest (Server.JString id) answer p) m
    = (Server.cancelledByUser, delete id m, []) /\
  forall answer' p',
    answer' <> Server.JUndefined ->
    Server.confirm w (Server.mkRequest (Server.JString id) answer' p')
      (delete id m)
    = (Server.notFound, delete id m, []).
Proof.
  intros Hm Hid [Hu Hf]. split.
  - unfold Server.confirm, Server.bind, Server.getPending,
      Server.deletePending, Server.ret. simpl.
    destruct id as [|x id]; [ done | ]. simpl.
    destruct answer; try done; simpl in *; rewrite Hm; simpl;
      by rewrite ?Hf.
  - intros answer' p' Hu'.
    unfold Server.confirm, Server.bind, Server.getPending, Server.ret. simpl.
    destruct id as [|x id]; [ done | ]. simpl.
    destruct answer'; try done; simpl; by rewrite lookup_delete_eq.
Qed.

Lemma decline_confirmation_witness :
  Server.confirm sampleWorld
    (Server.mkRequest (Server.JString (str "confirm_1_1"))
       (Server.JBool false) None)
    (<[str "confirm_1_1" := sampleConfirmation]> ∅)
  = (Server.cancelledByUser,
     delete (str "confirm_1_1")
       (<[str "confirm_1_1" := sampleConfirmation]> ∅), []).
Proof.
  apply (decline_confirmation sampleWorld
           (<[str "confirm_1_1" := sampleConfirmation]> ∅)
           (str "confirm_1_1") sampleConfirmation (Server.JBool false) None).
  - apply lookup_insert_eq.
  - discriminate.
  - split; [ discriminate | reflexivity ].
Defined.

(** a confirmed request, for comparison: the step is run again *)
Example confirm_runs_step :
  snd (Server.confirm sampleWorld
         (Server.mkRequest (Server.JString (str "confirm_1_1"))
            (Server.JBool true) None)
         (<[str "confirm_1_1" := sampleConfirmation]> ∅))
  = [Server.TerminalOpened (str "C:\missing")].
Proof. vm_compute. reflexivity. Qed.

(** * Further properties *)

(** ** Highlighting *)

Lemma indexOfFrom_range i s p :
  indexOfFrom i s p = -1 \/ i <= indexOfFrom i s p <= i + Z.of_nat (length s).
Proof.
  revert i. induction s as [|c s IH]; intros i; simpl.
  - destruct (startsWith [] p); [ right; lia | by left ].
  - destruct (startsWith (c :: s) p); [ right; lia | ].
    destruct (IH (i + 1)) as [-> | H]; [ by left | right; lia ].
Qed.

Lemma indexOf_range s p :
  indexOf s p = -1 \/ 0 <= indexOf s p <= Z.of_nat (length s).
Proof. apply (indexOfFrom_range 0). Qed.

Lemma substring_ordered s a b :
  0 <= a ->
  Z.min a (Z.of_nat (length s)) <= Z.min b (Z.of_nat (length s)) ->
  substring s a b
  = take (Z.to_nat (Z.min b (Z.of_nat (length s)))
          - Z.to_nat (Z.min a (Z.of_nat (length s))))
      (drop (Z.to_nat (Z.min a (Z.of_nat (length s)))) s).
Proof.
  intros Ha H. unfold substring, clampIndex. cbv zeta.
  replace (Z.max 0 (Z.min a (Z.of_nat (length s))))
    with (Z.min a (Z.of_nat (length s))) by lia.
  replace (Z.max 0 (Z.min b (Z.of_nat (length s))))
    with (Z.min b (Z.of_nat (length s))) by lia.
  f_equal; [ | f_equal ]; lia.
Qed.

Lemma substring_split s a b :
  0 <= a <= b ->
  substring s 0 a ++ substring s a b ++ substringFrom s b = s.
Proof.
  intros H. unfold substringFrom.
  rewrite !substring_ordered by lia.
  set (len := Z.of_nat (length s)).
  replace (Z.to_nat (Z.min 0 len)) with 0%nat by lia.
  replace (Z.to_nat (Z.min len len)) with (length s) by lia.
  remember (Z.to_nat (Z.min a len)) as i eqn:Ei.
  remember (Z.to_nat (Z.min b len)) as j eqn:Ej.
  assert (Hij : (i <= j <= length s)%nat) by lia.
  rewrite drop_0, Nat.sub_0_r.
  rewrite (take_ge (drop j s)) by (rewrite length_drop; lia).
  replace (drop j s) with (drop (j - i) (drop i s))
    by (rewrite drop_drop; f_equal; lia).
  by rewrite take_drop, take_drop.
Qed.

Lemma substring_empty s a : substring s a a = [].
Proof.
  unfold substring. cbv zeta. by rewrite Z.max_id, Z.min_id, Z.sub_diag.
Qed.

Lemma substringFrom_end s a :
  Z.of_nat (length s) <= a -> substringFrom s a = [].
Proof.
  intros H. unfold substringFrom, substring, clampIndex. cbv zeta.
  replace (Z.max 0 (Z.min a (Z.of_nat (length s)))) with (Z.of_nat (length s))
    by lia.
  replace (Z.max 0 (Z.min (Z.of_nat (length s)) (Z.of_nat (length s))))
    with (Z.of_nat (length s)) by lia.
  by rewrite Z.max_id, Z.min_id, Z.sub_diag.
Qed.

Lemma splitKeepFrom_concat inWs cur s :
  concat (splitKeepFrom inWs cur s) = rev cur ++ s.
Proof.
  revert inWs cur. induction s as [|c s IH]; intros inWs cur; simpl.
  - destruct inWs; simpl; by rewrite ?app_nil_r.
  - destruct (isWhiteSpace c), inWs; simpl; rewrite IH; simpl;
      by rewrite <- ?app_assoc.
Qed.

Lemma splitKeepWs_concat s : concat (splitKeepWs s) = s.
Proof. apply (splitKeepFrom_concat false []). Qed.

Lemma highlightSegment_text queryWords segment nodes :
  highlightSegment queryWords segment = Some nodes ->
  nodesText nodes = segment.
Proof.
  induction queryWords as [|q rest IH]; simpl; [ done | ].
  destruct (includes _ _); [ | done ].
  destruct (indexOf_range (toLowerCase segment) q) as [E | E].
  - rewrite E. simpl. done.
  - destruct (indexOf (toLowerCase segment) q =? -1) eqn:E1;
      [ apply Z.eqb_eq in E1; lia | ].
    simpl. intros [= <-]. unfold nodesText. simpl. rewrite app_nil_r.
    apply substring_split. lia.
Qed.

Lemma highlightWord_text queryWords segment :
  nodesText (highlightWord queryWords segment) = segment.
Proof.
  unfold highlightWord. destruct (negb _).
  - unfold nodesText. simpl. by rewrite app_nil_r.
  - destruct (highlightSegment queryWords segment) as [nodes|] eqn:E.
    + by apply highlightSegment_text in E.
    + unfold nodesText. simpl. by rewrite app_nil_r.
Qed.

Lemma nodesText_app l1 l2 : nodesText (l1 ++ l2) = nodesText l1 ++ nodesText l2.
Proof. unfold nodesText. by rewrite map_app, concat_app. Qed.

Lemma nodesText_flat_map queryWords segments :
  nodesText (flat_map (highlightWord queryWords) segments) = concat segments.
Proof.
  induction segments as [|x l IH]; simpl; [ done | ].
  by rewrite nodesText_app, highlightWord_text, IH.
Qed.

(** X1.  Highlighting shows the text it was given: the parts of the
    fragment, marked or not, read together as the text. *)
Theorem highlightMatch_text (text query : jsstring) :
  nodesText (highlightMatch text query) = text.
Proof.
  unfold highlightMatch.
  assert (Hone : nodesText [Text text] = text)
    by (unfold nodesText; simpl; by rewrite app_nil_r).
  destruct (negb (truthyString query) || negb (truthyString text));
    [ done | ]. cbv zeta.
  destruct (indexOf_range (toLowerCase text) (trim (toLowerCase query)))
    as [E | E].
  - rewrite E. simpl.
    destruct (_ =? 0); [ done | ].
    destruct (0 <? _); [ | done ].
    by rewrite nodesText_flat_map, splitKeepWs_concat.
  - set (i := indexOf (toLowerCase text) (trim (toLowerCase query))) in *.
    destruct (i =? -1) eqn:E1; [ apply Z.eqb_eq in E1; lia | ]. simpl.
    set (j := i + Z.of_nat (length query)).
    rewrite nodesText_app.
    change (nodesText (Mark ?m :: ?r)) with (m ++ nodesText r).
    etransitivity; [ | apply (substring_split text i j); lia ].
    apply (f_equal2 app); [ | apply (f_equal2 app); [ done | ] ].
    + destruct (0 <? i) eqn:E0.
      * unfold nodesText. simpl. by rewrite app_nil_r.
      * apply Z.ltb_ge in E0. replace i with 0 by lia.
        by rewrite substring_empty.
    + destruct (j <? Z.of_nat (length text)) eqn:Ej.
      * unfold nodesText. simpl. by rewrite app_nil_r.
      * apply Z.ltb_ge in Ej. by rewrite substringFrom_end.
Qed.



Lemma toLowerCase_length s : length (toLowerCase s) = length s.
Proof. apply length_map. Qed.






(** ** The suggestion effect: which prompts reach the app search *)

(** X3.  The confidence thresholds of [shouldBlockAppSuggestions] never
    decide: an intent of the classifier is blocked exactly when its type
    is Url, Path or Calculate. *)
Theorem block_by_type_alone (prompt : jsstring) :
  shouldBlockAppSuggestions (detectIntent prompt)
  = match type (detectIntent prompt) with
    | Url | Path | Calculate => true
    | _ => false
    end.
Proof.
  unfold detectIntent. cbv zeta.
  repeat match goal with
         | |- context [if ?b then _ else _] => destruct b
         end; reflexivity.
Qed.

Lemma truthyString_spec s : truthyString s = true <-> s <> [].
Proof. by destruct s. Qed.

Lemma toLowerCase_math s :
  forallb isMathChar s = true -> toLowerCase s = s.
Proof.
  induction s as [|c s IH]; simpl; [ done | ].
  intros H. apply andb_true_iff in H as [Hc Hs]. rewrite IH by done.
  f_equal. revert Hc.
  assert (Hall : forall c, implb (isMathChar c)
                             (charEqb (lowerChar c) c) = true) by by_chars.
  intros Hc. specialize (Hall c). rewrite Hc in Hall. by apply charEqb_eq.
Qed.

(** an arithmetic prompt is classified Path or Calculate *)
Lemma detectIntent_math input :
  forallb isMathChar input = true -> trim input <> [] ->
  detectIntent input = mkIntent Path (trim input) 0.9
  \/ detectIntent input = mkIntent Calculate (trim input) 0.85.
Proof.
  intros Hall Hne. apply trim_forallb in Hall.
  unfold detectIntent. destruct (trim input) as [|c t] eqn:Et; [ done | ].
  pose proof Hall as Hc. simpl in Hc. apply andb_true_iff in Hc as [Hc _].
  rewrite isQuitCommand_math, isSwitchCommand_math, isRecentCommand_math
    by done.
  rewrite isUrl_math, isChatCommand_math by done.
  destruct (isPath (c :: t)); [ by left | ].
  unfold isCalculation, mathPattern. rewrite Hall. by right.
Qed.

(** a name of letters and a label of letters and spaces are not found in,
    and do not find, an arithmetic term *)
Lemma command_math c t n d :
  forallb isMathChar (c :: t) = true -> isWhiteSpace c = false ->
  forallb (fun x => isLowerAZ x || isUpperAZ x) n = true -> n <> [] ->
  forallb (fun x => isLowerAZ x || isUpperAZ x || (code x =? 32)) d = true ->
  strEqb n (c :: t) || includes d (c :: t) || includes (c :: t) n = false.
Proof.
  intros Hall Hws Hn Hne Hd.
  pose proof Hall as Hc. simpl in Hc. apply andb_true_iff in Hc as [Hc _].
  assert (Hletter : forall x, isLowerAZ x || isUpperAZ x = true ->
                      isMathChar x = false).
  { assert (H : forall x, implb (isLowerAZ x || isUpperAZ x)
                            (negb (isMathChar x)) = true) by by_chars.
    intros x Hx. specialize (H x). rewrite Hx in H.
    by apply negb_true_iff. }
  destruct n as [|x n]; [ done | ].
  simpl in Hn. apply andb_true_iff in Hn as [Hx _].
  apply orb_false_iff. split; [ apply orb_false_iff; split | ].
  - apply not_true_is_false. intros H. apply strEqb_eq in H.
    injection H as -> _. apply Hletter in Hx. congruence.
  - apply not_true_is_false. intros H.
    assert (Hin : In c d) by (apply (includes_In _ _ c H); by left).
    rewrite forallb_forall in Hd. apply Hd in Hin.
    assert (H' : forall x,
              implb (isMathChar x && negb (isWhiteSpace x))
                (negb (isLowerAZ x || isUpperAZ x || (code x =? 32))) = true)
      by by_chars.
    specialize (H' c). rewrite Hc, Hws, Hin in H'. done.
  - apply (includes_math _ _ x); [ done | by left | by apply Hletter ].
Qed.

Lemma matchesSystemCommand_math c t :
  forallb isMathChar (c :: t) = true -> isWhiteSpace c = false ->
  matchesSystemCommand (c :: t) = false.
Proof.
  intros Hall Hws.
  unfold matchesSystemCommand, systemCommands.
  cbn [existsb SystemCommand.name SystemCommand.display].
  rewrite !(command_math c t) by first [ done | by vm_compute ].
  reflexivity.
Qed.

(** X4.  A prompt that is pure arithmetic never gets a suggestion list: the
    effect clears the list without a fetch, whatever the expression. *)
Theorem arithmetic_clears_suggestions (prompt : jsstring) :
  forallb isMathChar prompt = true ->
  suggestionPlan false prompt = ClearList.
Proof.
  intros Hall. unfold suggestionPlan. cbv zeta.
  destruct (trim prompt) as [|c t] eqn:Et; [ done | ]. simpl negb. cbv iota.
  assert (Hne : trim prompt <> []) by (by rewrite Et).
  assert (Hm : matchesSystemCommand (trim (toLowerCase prompt)) = false).
  { rewrite toLowerCase_trim, Et.
    pose proof (trim_forallb _ _ Hall) as Ht. rewrite Et in Ht.
    rewrite toLowerCase_math by done.
    apply matchesSystemCommand_math; [ done | by eapply trim_head ]. }
  rewrite Hm.
  destruct (detectIntent_math prompt Hall Hne) as [E | E]; by rewrite E.
Qed.

Lemma arithmetic_clears_suggestions_witness :
  suggestionPlan false (str "12 / (3 + 1)") = ClearList.
Proof. apply arithmetic_clears_suggestions. reflexivity. Defined.

(** ** The values of the intents *)

Ltac intent_cases :=
  repeat match goal with
         | |- context [if ?b then _ else _] => destruct b eqn:?
         end.

(** the value of an App intent is not empty, as the prompt is not blank *)
Lemma app_value_not_empty prompt :
  trim prompt <> [] -> type (detectIntent prompt) = App ->
  value (detectIntent prompt) <> [].
Proof.
  intros Hne. unfold detectIntent. cbv zeta.
  intent_cases; cbn [type value]; try discriminate; intros _; try done.
  match goal with
  | H : _ && (0 <? _) = true |- _ =>
      apply andb_true_iff in H as [_ H]; apply Z.ltb_lt in H;
      intros E; rewrite E in H; simpl in H; lia
  end.
Qed.

(** X5.  Whenever the suggestion effect asks the backend for apps, the
    query it sends is not blank and carries no white space at either end,
    so the backend searches for that very string: its branch for a blank
    query is never taken by this request. *)
Theorem app_query_never_blank (prompt q searchTermLower : jsstring) :
  suggestionPlan false prompt = ListApps q searchTermLower ->
  q <> [] /\ trim q = q
  /\ searchTermLower = toLowerCase (trim prompt)
  /\ forall apps,
       Backend.searchAppsRoute false q apps = searchApps q 10 apps.
Proof.
  unfold suggestionPlan. cbv zeta.
  destruct (truthyString (trim prompt)) eqn:Et; [ | done ].
  apply truthyString_spec in Et. simpl negb. cbv iota.
  intros H.
  assert (Hq : q = (if bool_decide (type (detectIntent prompt) = App)
                    then value (detectIntent prompt) else trim prompt)
               /\ searchTermLower = trim (toLowerCase prompt)).
  { destruct (type (detectIntent prompt)); try discriminate;
      destruct (_ && _); try discriminate; by injection H as <- <-. }
  destruct Hq as [Hq ->]. clear H.
  assert (Hne : q <> []).
  { rewrite Hq. case_bool_decide; [ by apply app_value_not_empty | done ]. }
  assert (Htrim : trim q = q).
  { rewrite Hq. case_bool_decide;
      [ apply detectIntent_value_trimmed | apply trim_idem ]. }
  repeat split; [ done | done | apply toLowerCase_trim | ].
  intros apps. unfold Backend.searchAppsRoute. rewrite Htrim.
  destruct q as [|x q']; [ done | ]. simpl. done.
Qed.

Lemma app_query_never_blank_witness :
  str "Notepad" <> []
  /\ trim (str "Notepad") = str "Notepad"
  /\ str "open  notepad" = toLowerCase (trim (str " Open  Notepad "))
  /\ forall apps,
       Backend.searchAppsRoute false (str "Notepad") apps
       = searchApps (str "Notepad") 10 apps.
Proof.
  apply (app_query_never_blank (str " Open  Notepad ")).
  vm_compute. reflexivity.
Defined.

(** X6.  A switch command loses only its first two code units when the
    prompt begins with "sw", also when it begins with "switch": the verb
    is removed by a pattern whose first alternative is "sw".  A prompt that
    begins with "focus" loses the five code units of that verb. *)
Theorem switch_value (input : jsstring) :
  isSwitchCommand (toLowerCase (trim input)) = true ->
  detectIntent input
  = mkIntent Switch
      (trim (drop (if startsWith (toLowerCase (trim input)) (str "sw")
                   then 2 else 5) (trim input)))
      1.0.
Proof.
  intros Hs. unfold detectIntent. cbv zeta.
  assert (Hq : isQuitCommand (toLowerCase (trim input)) = false).
  { unfold isSwitchCommand in Hs. unfold isQuitCommand.
    repeat (apply orb_true_iff in Hs as [Hs | Hs]);
      first [ apply strEqb_eq in Hs | apply startsWith_spec in Hs as [r Hs] ];
      rewrite Hs; reflexivity. }
  rewrite Hq, Hs. f_equal.
  unfold replacePrefix, matchAltCI.
  rewrite !matchLitCI_lower by reflexivity.
  destruct (startsWith (toLowerCase (trim input)) (str "sw")) eqn:Esw.
  - simpl. apply trim_skip_ws.
  - assert (Hswitch : startsWith (toLowerCase (trim input)) (str "switch")
                      = false).
    { apply not_true_is_false. intros H. apply startsWith_spec in H as [r H].
      rewrite H in Esw. discriminate. }
    rewrite Hswitch.
    assert (Hfocus : startsWith (toLowerCase (trim input)) (str "focus")
                     = true).
    { unfold isSwitchCommand in Hs.
      repeat (apply orb_true_iff in Hs as [Hs | Hs]);
        first [ apply strEqb_eq in Hs | apply startsWith_spec in Hs as [r Hs] ];
        rewrite Hs in Esw |- *; first [ discriminate | reflexivity ]. }
    rewrite Hfocus. simpl. apply trim_skip_ws.
Qed.

Lemma switch_value_witness :
  detectIntent (str "switch chrome")
  = mkIntent Switch (str "itch chrome") 1.0.
Proof. apply (switch_value (str "switch chrome")). reflexivity. Defined.

(** ** White space at the ends *)

Lemma skipClass_app cls x y :
  skipClass cls (x ++ y)
  = if forallb cls x then skipClass cls y else skipClass cls x ++ y.
Proof.
  induction x as [|c x IH]; simpl; [ done | ].
  destruct (cls c); simpl; [ apply IH | done ].
Qed.

Lemma forallb_rev {A} (P : A -> bool) l : forallb P (rev l) = forallb P l.
Proof.
  induction l as [|x l IH]; simpl; [ done | ].
  rewrite forallb_app, IH. simpl. rewrite andb_true_r. apply andb_comm.
Qed.

Lemma trimEnd_app a b :
  trimEnd (a ++ b)
  = if forallb isWhiteSpace b then trimEnd a else a ++ trimEnd b.
Proof.
  unfold trimEnd, trimStart. rewrite rev_app_distr, skipClass_app, forallb_rev.
  destruct (forallb isWhiteSpace b); [ done | ].
  by rewrite rev_app_distr, rev_involutive.
Qed.

Lemma skipClass_nil cls s : skipClass cls s = [] -> forallb cls s = true.
Proof.
  induction s as [|c s IH]; simpl; [ done | ].
  destruct (cls c); [ exact IH | done ].
Qed.

Lemma trim_nil s : trim s = [] -> forallb isWhiteSpace s = true.
Proof.
  unfold trim, trimEnd, trimStart. intros H.
  apply (f_equal (@rev ascii)) in H. rewrite rev_involutive in H. simpl in H.
  apply skipClass_nil in H. rewrite forallb_rev in H.
  destruct (skipClass isWhiteSpace s) as [|c r] eqn:E.
  - by apply skipClass_nil.
  - apply skipClass_head in E. simpl in H. by rewrite E in H.
Qed.

(** a trimmed string does not end in white space *)
Lemma trim_app_ws s a b :
  trim s = a ++ b -> forallb isWhiteSpace b = true -> b = [].
Proof.
  unfold trim, trimEnd. intros H Hb.
  apply (f_equal (@rev ascii)) in H.
  rewrite rev_involutive, rev_app_distr in H.
  destruct (rev b) as [|c r] eqn:E.
  - apply (f_equal (@rev ascii)) in E. by rewrite rev_involutive in E.
  - simpl in H. apply skipClass_head in H.
    rewrite <- forallb_rev, E in Hb. simpl in Hb. by rewrite H in Hb.
Qed.

(** a prefix that begins with a letter stays at the head of the trimmed
    string, with or without its last code unit when that is a space *)
Lemma trim_keeps_prefix p r :
  from_option isWhiteSpace true (head p) = false ->
  trim (p ++ r)
  = if forallb isWhiteSpace r then trimEnd p else p ++ trimEnd r.
Proof.
  intros Hp. unfold trim, trimStart.
  rewrite skipClass_fix; [ apply trimEnd_app | ].
  destruct p as [|c p]; [ done | ]. simpl in *. by rewrite Hp.
Qed.

(** ** The open verb *)

Lemma matchLitCI_suffix p s r :
  matchLitCI p s = Some r -> exists pre, s = pre ++ r.
Proof.
  revert s. induction p as [|x p IH]; intros s; simpl.
  - intros [= ->]. by exists [].
  - destruct s as [|y s]; [ done | ].
    destruct (charEqb _ _); [ | done ].
    intros H. apply IH in H as [pre ->]. by exists (y :: pre).
Qed.

Lemma matchAltCI_wsPlus ps s r :
  matchAltCI ps wsPlus s = Some r ->
  exists pre w, s = pre ++ w ++ r /\ w <> []
                /\ forallb isWhiteSpace w = true.
Proof.
  induction ps as [|p ps IH]; simpl; [ done | ].
  destruct (matchLitCI p s) as [u|] eqn:E; simpl; [ | exact IH ].
  destruct (wsPlus u) as [r'|] eqn:Eu; [ | exact IH ].
  intros [= ->]. apply matchLitCI_suffix in E as [pre ->].
  unfold wsPlus in Eu. destruct u as [|c u]; [ done | ].
  destruct (isWhiteSpace c) eqn:Ec; [ | done ]. injection Eu as <-.
  destruct (skipClass_split isWhiteSpace u) as (w & Hw & Hall).
  exists pre, (c :: w). split; [ | split; [ done | ] ].
  - simpl. by rewrite <- Hw.
  - simpl. by rewrite Ec.
Qed.

(** X7.  What follows the verb of an open command is never empty: the
    test of its length in the classifier never fails, and an open command
    that no earlier rule takes is an App intent of confidence 0.9. *)
Theorem open_command_names_an_app (input : jsstring) :
  isOpenCommand (toLowerCase (trim input)) = true ->
  let appName :=
    trim (replacePrefix [str "open"; str "launch"; str "start"] wsPlus
            (trim input)) in
  appName <> []
  /\ (type (detectIntent input) = App ->
      detectIntent input = mkIntent App appName 0.9).
Proof.
  intros Ho appName.
  assert (Hne : trim input <> []).
  { intros E. by rewrite E in Ho. }
  assert (Hnn : appName <> []).
  { subst appName. unfold replacePrefix.
    destruct (matchAltCI _ wsPlus (trim input)) as [r|] eqn:E.
    - intros Hr. apply trim_nil in Hr.
      apply matchAltCI_wsPlus in E as (pre & w & Hs & Hw & Hall).
      apply (trim_app_ws input pre (w ++ r)) in Hs.
      + by destruct w.
      + by rewrite forallb_app, Hall, Hr.
    - by rewrite trim_idem. }
  split; [ done | ].
  assert (Hlen : (0 <? Z.of_nat (length appName)) = true).
  { apply Z.ltb_lt. destruct appName; [ done | simpl; lia ]. }
  subst appName. unfold detectIntent. cbv zeta. rewrite Ho, Hlen. simpl andb.
  intent_cases; cbn [type]; done.
Qed.

Lemma open_command_names_an_app_witness :
  detectIntent (str "Launch   Notepad") = mkIntent App (str "Notepad") 0.9.
Proof.
  apply (open_command_names_an_app (str "Launch   Notepad"));
    reflexivity.
Defined.

(** ** Executing a selected suggestion *)



Lemma removeFirst_prefix p s :
  startsWith s p = true -> removeFirst s p = drop (length p) s.
Proof.
  intros H. pose proof (startsWith_length _ _ H) as Hlen.
  unfold removeFirst, indexOf.
  assert (E : indexOfFrom 0 s p = 0).
  { destruct s; simpl; by rewrite H. }
  rewrite E. simpl Z.eqb. cbv iota.
  rewrite substring_empty. simpl app.
  unfold substringFrom. rewrite substring_ordered by lia.
  rewrite take_ge by (rewrite length_drop; lia). f_equal. lia.
Qed.

Lemma toLowerCase_app a b :
  toLowerCase (a ++ b) = toLowerCase a ++ toLowerCase b.
Proof. apply map_app. Qed.

(** a name that begins with "Switch to " is read as a switch command, and
    one that begins with "quit " as a quit command *)
Lemma switch_name_intent n :
  startsWith n (str "Switch to ") = true -> type (detectIntent n) = Switch.
Proof.
  intros H. apply startsWith_spec in H as [r ->].
  unfold detectIntent. cbv zeta.
  rewrite trim_keeps_prefix by done.
  destruct (forallb isWhiteSpace r); [ reflexivity | ].
  rewrite toLowerCase_app. reflexivity.
Qed.

Lemma quit_name_intent n :
  startsWith n (str "quit ") = true -> type (detectIntent n) = Quit.
Proof.
  intros H. apply startsWith_spec in H as [r ->].
  unfold detectIntent. cbv zeta.
  rewrite trim_keeps_prefix by done.
  destruct (forallb isWhiteSpace r); [ reflexivity | ].
  rewrite toLowerCase_app. reflexivity.
Qed.


(** an app whose name reads as a switch command is not opened when its
    suggestion is selected: its path goes to the endpoint that focuses a
    running process *)
Example focus_assist_is_not_opened :
  Palette.executeSelected
    (Suggestion.mk (str "Focus Assist") (str "C:\Tools\FocusAssist.exe")
       7000 (Some false) (Some []) (Some []))
  = Palette.PostFocusApp (str "C:\Tools\FocusAssist.exe").
Proof. vm_compute. reflexivity. Qed.

Lemma filterAndSortApps_subset `{Collator} term apps app :
  app ∈ filterAndSortApps term apps -> app ∈ apps.
Proof.
  unfold filterAndSortApps. cbv zeta.
  destruct (truthyString term); rewrite arraySort_perm; [ | done ].
  rewrite list_elem_of_filter. tauto.
Qed.

(** X9.  Selecting a quit suggestion asks the backend to quit the process
    the suggestion was built from, and selecting a switch suggestion asks
    it to focus that process, for processes whose names do not begin with
    "system:". *)
Theorem running_suggestion_round_trip `{Collator} (intentValue : jsstring)
    (apps : list RunningApp.t) (selected : Suggestion.t) :
  Forall (fun app => startsWith (RunningApp.name app) (str "system:") = false)
    apps ->
  (selected ∈ quitSuggestions intentValue apps ->
   exists app,
     app ∈ apps
     /\ Palette.executeSelected selected
        = Palette.PostQuitApp (RunningApp.name app))
  /\ (selected ∈ switchSuggestions intentValue apps ->
      exists app,
        app ∈ apps
        /\ Palette.executeSelected selected
           = Palette.PostFocusApp (RunningApp.name app)).
Proof.
  intros Hsys. rewrite Forall_forall in Hsys.
  split; intros Hin; apply list_elem_of_fmap in Hin as (app & -> & Hin);
    apply filterAndSortApps_subset in Hin; exists app; (split; [ done | ]);
    unfold Palette.executeSelected; cbv zeta; cbn [Suggestion.path
      Suggestion.name]; rewrite (Hsys app Hin), andb_false_r.
  - rewrite (quit_name_intent (str "quit " ++ RunningApp.name app))
      by reflexivity.
    reflexivity.
  - rewrite (switch_name_intent (str "Switch to " ++ RunningApp.name app))
      by reflexivity.
    reflexivity.
Qed.

Lemma running_suggestion_round_trip_witness :
  (Suggestion.mk (str "quit Code") (str "Code") 1.0 None None None
     ∈ quitSuggestions (str "cod")
         [RunningApp.mk (str "Code") (str "main.v");
          RunningApp.mk (str "chrome") (str "New Tab")] ->
   exists app,
     app ∈ [RunningApp.mk (str "Code") (str "main.v");
            RunningApp.mk (str "chrome") (str "New Tab")]
     /\ Palette.executeSelected
          (Suggestion.mk (str "quit Code") (str "Code") 1.0 None None None)
        = Palette.PostQuitApp (RunningApp.name app))
  /\ (Suggestion.mk (str "quit Code") (str "Code") 1.0 None None None
        ∈ switchSuggestions (str "cod")
            [RunningApp.mk (str "Code") (str "main.v");
             RunningApp.mk (str "chrome") (str "New Tab")] ->
      exists app,
        app ∈ [RunningApp.mk (str "Code") (str "main.v");
               RunningApp.mk (str "chrome") (str "New Tab")]
        /\ Palette.executeSelected
             (Suggestion.mk (str "quit Code") (str "Code") 1.0 None None None)
           = Palette.PostFocusApp (RunningApp.name app)).
Proof.
  apply (running_suggestion_round_trip (str "cod")).
  repeat constructor.
Defined.

(** X10.  Selecting the suggestion of a system command sends the action of
    that command as the prompt, whatever the command is. *)
Theorem system_suggestion_round_trip (cmd : SystemCommand.t) :
  Palette.executeSelected (systemSuggestion cmd)
  = Palette.PostPrompt (SystemCommand.action cmd).
Proof.
  unfold Palette.executeSelected, systemSuggestion. cbv zeta.
  cbn [Suggestion.path Suggestion.name].
  replace (startsWith (str "system:" ++ SystemCommand.action cmd)
             (str "system:")) with true by reflexivity.
  simpl andb. cbv iota.
  rewrite removeFirst_prefix by reflexivity. reflexivity.
Qed.

(** X11.  Enter on an open list always finds a suggestion under the cursor:
    in no state the component reaches does [handleExecute] read a field of
    an undefined selection. *)
Theorem execute_finds_selection (events : list Presenter.Event)
    (selectedApp : option Suggestion.t)
    (searchData : option (list Suggestion.t)) (prompt : jsstring) :
  Palette.handleExecute (Presenter.run events Presenter.initial) selectedApp
    searchData prompt
  = Palette.Returns
  \/ exists r,
       Palette.handleExecute (Presenter.run events Presenter.initial)
         selectedApp searchData prompt
       = Palette.Sends r.
Proof.
  assert (Hb : cursorInBounds (Presenter.run events Presenter.initial))
    by (apply run_cursorInBounds; by left).
  unfold Palette.handleExecute.
  destruct (Presenter.run events Presenter.initial) as [l sh i].
  unfold cursorInBounds in Hb. simpl in *.
  destruct (sh && (0 <? Z.of_nat (length l))) eqn:E.
  - apply andb_true_iff in E as [_ E]. apply Z.ltb_lt in E.
    destruct selectedApp; [ right; by eexists | ].
    destruct Hb as [-> | Hb]; [ simpl in E; lia | ].
    unfold Palette.nth_Z.
    replace (i <? 0) with false by (symmetry; apply Z.ltb_ge; lia).
    destruct (l !! Z.to_nat i) eqn:El; [ right; by eexists | ].
    apply lookup_ge_None in El. lia.
  - destruct (Palette.executeDirect searchData prompt);
      [ right; by eexists | by left ].
Qed.

(** ** The requests of a direct command and the checks of the backend *)

Lemma filter_forallb {A} (P : A -> bool) l :
  forallb P (List.filter P l) = true.
Proof.
  induction l as [|x l IH]; simpl; [ done | ].
  destruct (P x) eqn:E; simpl; [ by rewrite E | done ].
Qed.

Lemma filter_id {A} (P : A -> bool) l :
  forallb P l = true -> List.filter P l = l.
Proof.
  induction l as [|x l IH]; simpl; [ done | ].
  intros H. apply andb_true_iff in H as [Hx Hl]. rewrite Hx. f_equal.
  by apply IH.
Qed.

(** X12.  The expression [/calculate] evaluates holds arithmetic code units
    only, so the second sanitising before the fallback evaluation changes
    nothing; and an expression that is pure arithmetic is evaluated as it
    was sent, without the white space around it. *)
Theorem sanitize_keeps_arithmetic (expression : jsstring) :
  forallb isMathChar (Backend.sanitize expression) = true
  /\ Backend.safeExpression (Backend.sanitize expression)
     = Backend.sanitize expression
  /\ (forallb isMathChar expression = true ->
      Backend.sanitize expression = trim expression).
Proof.
  unfold Backend.sanitize, Backend.safeExpression.
  split; [ apply filter_forallb | ].
  split; [ apply filter_id, filter_forallb | ].
  intros H. apply filter_id. by apply trim_forallb.
Qed.

Lemma encodeUnit_safe c : forallb isUriSafe (encodeUnit c) = true.
Proof. revert c. by_chars. Qed.

Lemma encodeURIComponent_safe s :
  forallb isUriSafe (encodeURIComponent s) = true.
Proof.
  unfold encodeURIComponent. induction s as [|c s IH]; simpl; [ done | ].
  by rewrite forallb_app, encodeUnit_safe, IH.
Qed.

Lemma uriSafe_not_special c :
  isUriSafe c = true -> isShellSpecial c = false.
Proof.
  assert (H : forall c, implb (isUriSafe c) (negb (isShellSpecial c)) = true)
    by by_chars.
  intros Hc. specialize (H c). rewrite Hc in H. by apply negb_true_iff.
Qed.

(** X13.  The address of a web search is the fixed Google prefix followed
    by code units that are unreserved marks or belong to an escape: it
    holds no double quote, no white space and no operator of the shell, so
    it stays inside the quotes of the command that opens it. *)
Theorem search_address_is_quoted (query searchUrl : jsstring) :
  Backend.searchWeb query = Some (Backend.OpenSearch searchUrl) ->
  exists escaped,
    searchUrl = str "https://www.google.com/search?q=" ++ escaped
    /\ escaped = encodeURIComponent (trim query)
    /\ forallb isUriSafe escaped = true
    /\ existsb isShellSpecial searchUrl = false.
Proof.
  unfold Backend.searchWeb. destruct (_ || _); [ done | ]. cbv zeta.
  destruct (_ || _); [ done | ]. intros [= <-].
  eexists. split; [ reflexivity | ]. split; [ reflexivity | ].
  split; [ apply encodeURIComponent_safe | ].
  etransitivity;
    [ exact (eq_refl : existsb isShellSpecial
                         (str "https://www.google.com/search?q="
                          ++ encodeURIComponent (trim query))
                       = existsb isShellSpecial
                           (encodeURIComponent (trim query))) | ].
  pose proof (encodeURIComponent_safe (trim query)) as H.
  induction (encodeURIComponent (trim query)) as [|c l IH]; [ done | ].
  simpl in *. apply andb_true_iff in H as [Hc Hl].
  by rewrite (uriSafe_not_special c Hc), IH.
Qed.

Lemma search_address_is_quoted_witness :
  exists escaped,
    str "https://www.google.com/search?q=a%26b%20c"
    = str "https://www.google.com/search?q=" ++ escaped
    /\ escaped = encodeURIComponent (trim (str " a&b c "))
    /\ forallb isUriSafe escaped = true
    /\ existsb isShellSpecial
         (str "https://www.google.com/search?q=a%26b%20c")
       = false.
Proof.
  apply (search_address_is_quoted (str " a&b c ")).
  vm_compute. reflexivity.
Defined.

(** what the classifier tells about a prompt, by the type of its intent *)
Lemma intent_facts prompt :
  (type (detectIntent prompt) = Path -> value (detectIntent prompt) = trim prompt)
  /\ (type (detectIntent prompt) = Calculate ->
      value (detectIntent prompt) = trim prompt
      /\ isCalculation (trim prompt) = true)
  /\ (type (detectIntent prompt) = Url ->
      value (detectIntent prompt) = trim prompt /\ isUrl (trim prompt) = true)
  /\ (type (detectIntent prompt) = Search ->
      value (detectIntent prompt) = trim prompt
      /\ isUrl (trim prompt) = false).
Proof.
  unfold detectIntent. cbv zeta.
  intent_cases; cbn [type value]; repeat split; done.
Qed.

Lemma trim_not_empty s : trim s <> [] -> s <> [].
Proof. intros H ->. by apply H. Qed.

(** a string that [trim] leaves alone: it has a code unit that is no white
    space, and [trimEnd] leaves it alone *)
Lemma trimmed_facts t :
  trim t = t -> t <> [] ->
  forallb isWhiteSpace t = false /\ trimEnd t = t.
Proof.
  intros Ht Hne. split.
  - apply not_true_is_false. intros H. apply Hne.
    by apply (trim_app_ws t [] t).
  - rewrite <- Ht. unfold trim. apply trimEnd_idem.
Qed.

Lemma filter_existsb {A} (P Q : A -> bool) l :
  (forall x, P x = true -> Q x = true) ->
  existsb P l = true -> List.filter Q l <> [].
Proof.
  intros HPQ. induction l as [|x l IH]; simpl; [ done | ].
  destruct (P x) eqn:E.
  - by rewrite (HPQ x E).
  - simpl. intros H. destruct (Q x); [ done | by apply IH ].
Qed.

(** the expression of a Calculate intent keeps a code unit when it is
    sanitised *)
Lemma sanitize_calculation t :
  trim t = t -> isCalculation t = true -> Backend.sanitize t <> [].
Proof.
  intros Ht Hc. unfold Backend.sanitize. rewrite Ht.
  unfold isCalculation in Hc. apply orb_true_iff in Hc as [Hc | Hc].
  - unfold mathPattern in Hc. destruct t as [|c t]; [ done | ].
    by rewrite filter_id.
  - apply andb_true_iff in Hc as [_ Hd].
    apply (filter_existsb isDigit); [ | done ].
    intros x Hx. unfold isMathChar. by rewrite Hx.
Qed.

(** an app without a name gets the score 0 *)
Lemma wordMatches_no_words queryWords :
  wordMatches queryWords [] = (0, 0%Q).
Proof.
  unfold wordMatches. generalize (0, 0%Q).
  induction queryWords as [|w l IH]; intros acc; simpl; [ done | apply IH ].
Qed.

Lemma scoreApp_empty_name queryLower queryWords :
  queryLower <> [] -> scoreApp queryLower queryWords [] = 0%Q.
Proof.
  intros Hq. destruct queryLower as [|c q]; [ done | ].
  unfold scoreApp. cbv zeta.
  change (toLowerCase []) with (@nil ascii).
  change (splitWords []) with (@nil jsstring).
  rewrite wordMatches_no_words. reflexivity.
Qed.

(** every suggestion of [searchApps] has a name *)
Lemma searchApps_named query limit apps s :
  s ∈ searchApps query limit apps -> Suggestion.name s <> [].
Proof.
  unfold searchApps.
  destruct (negb (truthyString query)
            || (Z.of_nat (length (trim query)) =? 0)) eqn:Eg;
    [ by intros ?%elem_of_nil | ].
  destruct (Z.of_nat (length apps) =? 0); [ by intros ?%elem_of_nil | ].
  cbv zeta.
  apply orb_false_iff in Eg as [_ Eg]. apply Z.eqb_neq in Eg.
  intros Hin. apply list_elem_of_fmap in Hin as (sa & -> & Hin).
  unfold slice0 in Hin. cbv zeta in Hin.
  apply list_elem_of_lookup_1 in Hin as [i Hin].
  apply lookup_take_Some in Hin as [Hin _].
  apply list_elem_of_lookup_2 in Hin.
  rewrite toLowerCase_trim in Hin.
  apply rankedApps_elem in Hin as (app & _ & -> & Hpos).
  unfold toSuggestion. cbn [fst snd Suggestion.name].
  intros E. unfold scoreOf in Hpos. rewrite E in Hpos.
  rewrite scoreApp_empty_name in Hpos; [ by apply Qlt_irrefl in Hpos | ].
  intros E'. apply (f_equal (@length ascii)) in E'.
  rewrite toLowerCase_length in E'. simpl in E'. lia.
Qed.

Lemma normalizeUrl_opened t :
  trim t = t -> t <> [] ->
  Backend.searchWeb (Palette.normalizeUrl t)
  = Some (Backend.OpenUrl (Palette.normalizeUrl t))
  /\ (startsWith (Palette.normalizeUrl t) (str "http://") = true
      \/ startsWith (Palette.normalizeUrl t) (str "https://") = true).
Proof.
  intros Ht Hne. destruct (trimmed_facts t Ht Hne) as [Hws Hend].
  assert (Hpre : forall p, from_option isWhiteSpace true (head p) = false ->
            trim (p ++ t) = p ++ t).
  { intros p Hp. by rewrite trim_keeps_prefix, Hws, Hend. }
  unfold Palette.normalizeUrl. cbv zeta. rewrite Ht.
  assert (Hopen : forall u,
            u <> [] -> trim u = u ->
            startsWith u (str "http://") || startsWith u (str "https://")
            = true ->
            Backend.searchWeb u = Some (Backend.OpenUrl u)).
  { intros u Hu Htu Hs. unfold Backend.searchWeb. rewrite Htu.
    apply truthyString_spec in Hu. rewrite Hu.
    change (negb true || negb true) with false. cbv iota zeta.
    by rewrite Hs. }
  destruct (startsWith t (str "http://")) eqn:E1.
  { simpl negb. simpl andb. cbv iota.
    split; [ apply Hopen; [ done | done | by rewrite E1 ] | by left ]. }
  destruct (startsWith t (str "https://")) eqn:E2.
  { simpl negb. simpl andb. cbv iota.
    split; [ apply Hopen; [ done | done | by rewrite E2, orb_true_r ]
           | by right ]. }
  simpl negb. simpl andb. cbv iota.
  destruct (startsWith t (str "localhost")).
  - split; [ apply Hopen; [ done | by apply Hpre | reflexivity ] | by left ].
  - split; [ apply Hopen; [ done | by apply Hpre | reflexivity ] | by right ].
Qed.

(** X14.  No request that a directly executed prompt sends is refused by
    the checks of its endpoint for a missing or empty field: not the
    prompt of a chat, the path, the expression (which keeps a code unit
    when it is sanitised), the query, or the name of the app, be it the
    first result of the app search or the value of the intent. *)
Theorem direct_request_is_accepted (prompt : jsstring)
    (failed timedOut : bool) (apps : list InstalledApp.t)
    (r : Palette.Request) :
  Palette.executeDirect
    (searchDataOf failed timedOut (value (detectIntent prompt)) apps) prompt
  = Some r ->
  Backend.refuses r = None.
Proof.
  unfold Palette.executeDirect. cbv zeta.
  destruct (truthyString (trim prompt)) eqn:Et; [ | done ].
  apply truthyString_spec in Et. simpl negb. cbv iota.
  pose proof (intent_facts prompt) as (Hpath & Hcalc & Hurl & Hsearch).
  pose proof (app_value_not_empty prompt Et) as Happ.
  pose proof (trim_not_empty _ Et) as Hp.
  destruct (type (detectIntent prompt)) eqn:Ety.
  - (* path *)
    intros [= <-]. rewrite Hpath by done. simpl.
    by destruct (trim prompt).
  - (* app *)
    specialize (Happ eq_refl).
    destruct (searchDataOf _ _ _ _) as [[|app l]|] eqn:Esd;
      intros [= <-]; simpl;
      try by destruct (value (detectIntent prompt)).
    assert (Hn : Suggestion.name app <> []).
    { unfold searchDataOf in Esd. destruct failed; [ done | ].
      injection Esd as Esd. unfold Backend.searchAppsRoute in Esd.
      destruct (_ || _); [ done | ]. destruct timedOut; [ done | ].
      apply (searchApps_named (trim (value (detectIntent prompt))) 10 apps).
      rewrite Esd. by left. }
    by destruct (Suggestion.name app).
  - (* calculate *)
    intros [= <-]. destruct (Hcalc eq_refl) as [-> Hc].
    pose proof (sanitize_calculation (trim prompt) (trim_idem _) Hc) as Hs.
    apply truthyString_spec in Hs. apply truthyString_spec in Et.
    unfold Backend.refuses. by rewrite Et, Hs.
  - (* search *)
    intros [= <-]. destruct (Hsearch eq_refl) as [-> _].
    apply truthyString_spec in Et.
    unfold Backend.refuses, Backend.searchWeb. rewrite trim_idem, Et.
    change (negb true || negb true) with false. cbv iota zeta.
    by destruct (_ || _).
  - (* chat *)
    intros [= <-]. simpl. unfold orElse.
    destruct (value (detectIntent prompt)); simpl; [ | done ].
    by destruct prompt.
  - (* quit *)
    destruct (truthyString (value (detectIntent prompt))) eqn:Ev; [ | done ].
    intros [= <-]. simpl. by rewrite Ev.
  - (* switch *)
    destruct (truthyString (value (detectIntent prompt))) eqn:Ev; [ | done ].
    intros [= <-]. simpl. by rewrite Ev.
  - done.
  - (* url *)
    intros [= <-]. destruct (Hurl eq_refl) as [-> _].
    unfold Backend.refuses.
    destruct (normalizeUrl_opened (trim prompt) (trim_idem _) Et) as [-> _].
    reflexivity.
  - intros [= <-]. simpl. by destruct prompt.
Qed.

Lemma direct_request_is_accepted_witness :
  Backend.refuses (Palette.PostOpenApp (str "Code")
                     (Some (Palette.mkDetails (str "C:\Apps\Code.exe") false
                              [] [])))
  = None.
Proof.
  apply (direct_request_is_accepted (str "code") false false
           [InstalledApp.mk (str "Code") (str "C:\Apps\Code.exe") [] [] false
              [] []]).
  vm_compute. reflexivity.
Defined.

(** X15.  A prompt classified Url is opened as an address: the query it
    sends begins with "http://" or "https://", which is what makes the
    backend open it and not search for it.  A prompt classified Search is
    never opened as an address: the backend opens the Google search for the
    trimmed prompt. *)
Theorem web_request_kinds (prompt : jsstring)
    (searchData : option (list Suggestion.t)) :
  (type (detectIntent prompt) = Url ->
   exists url,
     Palette.executeDirect searchData prompt
     = Some (Palette.PostSearchWeb url)
     /\ Backend.searchWeb url = Some (Backend.OpenUrl url)
     /\ endsWith url (trim prompt) = true)
  /\ (type (detectIntent prompt) = Search ->
      Palette.executeDirect searchData prompt
      = Some (Palette.PostSearchWeb (trim prompt))
      /\ Backend.searchWeb (trim prompt)
         = Some (Backend.OpenSearch
                   (str "https://www.google.com/search?q="
                    ++ encodeURIComponent (trim prompt)))).
Proof.
  pose proof (intent_facts prompt) as (_ & _ & Hurl & Hsearch).
  assert (Hblank : trim prompt = [] -> type (detectIntent prompt) = App).
  { intros E. unfold detectIntent. by rewrite E. }
  split; intros Hty.
  - destruct (Hurl Hty) as [Hv _].
    assert (Hne : trim prompt <> []).
    { intros E. apply Hblank in E. congruence. }
    exists (Palette.normalizeUrl (trim prompt)).
    destruct (normalizeUrl_opened (trim prompt) (trim_idem _) Hne) as [Ho _].
    split; [ | split; [ done | ] ].
    + unfold Palette.executeDirect. cbv zeta. rewrite Hty, Hv.
      by destruct (trim prompt).
    + unfold endsWith. apply startsWith_spec.
      unfold Palette.normalizeUrl. cbv zeta. rewrite trim_idem.
      destruct (_ && _); [ destruct (startsWith _ _) | ];
        rewrite ?rev_app_distr; eexists; try reflexivity.
      by rewrite app_nil_r.
  - destruct (Hsearch Hty) as [Hv Hu].
    assert (Hne : trim prompt <> []).
    { intros E. apply Hblank in E. congruence. }
    split.
    + unfold Palette.executeDirect. cbv zeta. rewrite Hty, Hv.
      by destruct (trim prompt).
    + unfold isUrl in Hu. apply orb_false_iff in Hu as [Hu _].
      apply orb_false_iff in Hu as [_ Hinc].
      assert (Hs : forall p, includes p (str "://") = true ->
                startsWith (trim prompt) p = false).
      { intros p Hp. apply not_true_is_false. intros H.
        apply startsWith_spec in H as [r H].
        apply includes_spec in Hp as (a & b & ->).
        assert (includes (trim prompt) (str "://") = true); [ | congruence ].
        apply includes_spec. exists a, (b ++ r). rewrite H.
        by rewrite <- !app_assoc. }
      unfold Backend.searchWeb. rewrite trim_idem.
      rewrite !Hs by reflexivity.
      by destruct (trim prompt).
Qed.

(** an address that holds a double quote reaches the command line as it
    is: the quotes around it end early, and what follows them is read by
    the shell *)
Example address_is_not_escaped :
  let prompt := str "http://a" ++ [chr 34] ++ str " & calc & " ++ [chr 34] in
  Palette.executeDirect None prompt = Some (Palette.PostSearchWeb prompt)
  /\ Backend.searchWeb prompt = Some (Backend.OpenUrl prompt)
  /\ existsb isShellSpecial prompt = true.
Proof. vm_compute. repeat split. Qed.

(** ** Projects *)

(** [trim] cuts a string at both ends *)
Lemma trim_middle s : exists a b, s = a ++ trim s ++ b.
Proof.
  unfold trim, trimEnd, trimStart.
  destruct (skipClass_split isWhiteSpace s) as (a & Ha & _).
  destruct (skipClass_split isWhiteSpace (rev (skipClass isWhiteSpace s)))
    as (b & Hb & _).
  exists a, (rev b). rewrite <- rev_app_distr, <- Hb, rev_involutive.
  exact Ha.
Qed.

Lemma trim_same_length s : length (trim s) = length s -> trim s = s.
Proof.
  destruct (trim_middle s) as (a & b & H). intros Hlen.
  rewrite H in Hlen at 2. rewrite !length_app in Hlen.
  destruct a; [ | simpl in Hlen; lia ].
  destruct b; [ | simpl in Hlen; lia ].
  simpl in H. rewrite app_nil_r in H. done.
Qed.

Lemma lower_trimmed s : trim (toLowerCase s) = toLowerCase s -> trim s = s.
Proof.
  intros H. apply trim_same_length.
  rewrite toLowerCase_trim in H. apply (f_equal (@length ascii)) in H.
  by rewrite !toLowerCase_length in H.
Qed.

(** what [resolveProject] returns matches the trimmed query up to case *)
Lemma resolveProject_result_aux items nickname q :
  resolveProject (Some items) nickname = Some q ->
  (Project.nickname q <> []
   /\ toLowerCase (Project.nickname q) = toLowerCase (trim nickname))
  /\ trim (Project.nickname q) = Project.nickname q.
Proof.
  simpl. rewrite toLowerCase_trim. intros Hf.
  apply find_some in Hf as [_ Hq].
  apply andb_true_iff in Hq as [H1 H2]. apply strEqb_eq in H2.
  split; [ split; [ by apply truthyString_spec | done ] | ].
  apply lower_trimmed. rewrite H2, toLowerCase_trim. by rewrite trim_idem.
Qed.

(** X16.  A project that [resolveProject] returns has a nickname that is
    not empty, equals the query up to case and up to the white space
    around the query, and carries no white space at its own ends; it is the
    first such project, and the answer is the same for the query in lower
    case and for the trimmed query. *)
Theorem resolveProject_result (projects : option (list Project.t))
    (nickname : jsstring) :
  (forall q,
     resolveProject projects nickname = Some q ->
     Project.nickname q <> []
     /\ toLowerCase (Project.nickname q) = toLowerCase (trim nickname)
     /\ trim (Project.nickname q) = Project.nickname q
     /\ exists before after,
          projects = Some (before ++ q :: after)
          /\ Forall (fun p => toLowerCase (Project.nickname p)
                              <> toLowerCase (Project.nickname q)) before)
  /\ resolveProject projects (toLowerCase nickname)
     = resolveProject projects nickname
  /\ resolveProject projects (trim nickname)
     = resolveProject projects nickname.
Proof.
  split; [ | split ].
  - intros q. destruct projects as [items|]; [ | done ]. simpl.
    rewrite toLowerCase_trim. intros Hf.
    assert (Hq : Project.nickname q <> []
                 /\ toLowerCase (Project.nickname q)
                    = toLowerCase (trim nickname)).
    { apply find_some in Hf as [_ Hq].
      apply andb_true_iff in Hq as [H1 H2].
      split; [ by apply truthyString_spec | by apply strEqb_eq ]. }
    destruct Hq as [Hne Hlow]. repeat split; [ done | done | | ].
    + apply lower_trimmed. rewrite Hlow, toLowerCase_trim.
      by rewrite trim_idem.
    + induction items as [|p items IH]; [ done | ]. simpl in Hf.
      destruct (truthyString (Project.nickname p)
                && strEqb (toLowerCase (Project.nickname p))
                     (toLowerCase (trim nickname))) eqn:E.
      * injection Hf as ->. by exists [], items.
      * destruct (IH Hf) as (before & after & [= ->] & Hall).
        exists (p :: before), after. split; [ done | ].
        constructor; [ | done ].
        intros Heq.
        assert (Hs : strEqb (toLowerCase (Project.nickname p))
                       (toLowerCase (trim nickname)) = true)
          by (apply strEqb_eq; congruence).
        rewrite Hs, andb_true_r in E.
        destruct (Project.nickname p) eqn:En; [ | done ].
        destruct (Project.nickname q); [ done | discriminate ].
  - destruct projects; [ | done ]. simpl. by rewrite toLowerCase_idem.
  - destruct projects; [ | done ]. simpl.
    by rewrite !toLowerCase_trim, trim_idem.
Qed.

(** X17.  Among the projects the settings save, a project whose nickname
    has no white space at its ends is found under that nickname, as the
    first project with the nickname up to case; a project whose nickname
    has white space at an end is saved as well, and no query finds it. *)
Theorem saved_project_resolution (projects : list Project.t)
    (p : Project.t) :
  In p (cleanedProjects projects) ->
  (trim (Project.nickname p) = Project.nickname p ->
   exists q,
     resolveProject (Some (cleanedProjects projects)) (Project.nickname p)
     = Some q
     /\ toLowerCase (Project.nickname q) = toLowerCase (Project.nickname p))
  /\ (trim (Project.nickname p) <> Project.nickname p ->
      forall nickname,
        resolveProject (Some (cleanedProjects projects)) nickname <> Some p).
Proof.
  intros Hin. split.
  - intros Ht. simpl. rewrite toLowerCase_trim, Ht.
    assert (Hp : truthyString (Project.nickname p)
                 && strEqb (toLowerCase (Project.nickname p))
                      (toLowerCase (Project.nickname p)) = true).
    { apply andb_true_iff. split; [ | by apply strEqb_eq ].
      unfold cleanedProjects in Hin. apply filter_In in Hin as [_ Hin].
      apply andb_true_iff in Hin as [Hin _]. by rewrite Ht in Hin. }
    destruct (List.find _ (cleanedProjects projects)) as [q|] eqn:Ef.
    + exists q. split; [ done | ].
      apply find_some in Ef as [_ Hq].
      apply andb_true_iff in Hq as [_ Hq]. by apply strEqb_eq.
    + apply (find_none _ _ Ef) in Hin. simpl in Hin. congruence.
  - intros Ht nickname Hr.
    destruct (resolveProject_result_aux (cleanedProjects projects) nickname p
                Hr) as [_ H].
    done.
Qed.

Lemma saved_project_resolution_witness :
  (trim (Project.nickname sampleProject) = Project.nickname sampleProject ->
   exists q,
     resolveProject (Some (cleanedProjects sampleProjects))
       (Project.nickname sampleProject)
     = Some q
     /\ toLowerCase (Project.nickname q)
        = toLowerCase (Project.nickname sampleProject))
  /\ (trim (Project.nickname sampleProject) <> Project.nickname sampleProject ->
      forall nickname,
        resolveProject (Some (cleanedProjects sampleProjects)) nickname
        <> Some sampleProject).
Proof.
  apply (saved_project_resolution sampleProjects sampleProject).
  vm_compute. left. reflexivity.
Defined.

(** ** Ports *)

Lemma digitsCapture_digits s d :
  digitsCapture s = Some d -> d <> [] /\ forallb isDigit d = true.
Proof.
  unfold digitsCapture.
  assert (H : forallb isDigit (takeClass isDigit s) = true).
  { induction s as [|c s IH]; simpl; [ done | ].
    destruct (isDigit c) eqn:E; simpl; [ by rewrite E | done ]. }
  destruct (takeClass isDigit s); [ done | ]. by intros [= <-].
Qed.

Lemma searchFrom_found {A} (m : jsstring -> option A) s r :
  searchFrom m s = Some r -> exists u, m u = Some r.
Proof.
  induction s as [|c s IH]; simpl.
  - destruct (m []) eqn:E; [ | done ]. intros [= <-]. by exists [].
  - destruct (m (c :: s)) eqn:E; [ | exact IH ].
    intros [= <-]. by exists (c :: s).
Qed.

Lemma matchAltCI_found ps k s r :
  matchAltCI ps k s = Some r -> exists u, k u = Some r.
Proof.
  induction ps as [|p ps IH]; simpl; [ done | ].
  destruct (matchLitCI p s) as [u|]; simpl; [ | exact IH ].
  destruct (k u) eqn:E; [ | exact IH ]. intros [= <-]. by exists u.
Qed.

(** a port read from the start command is a run of digits *)
Lemma port_patterns_digits s d :
  searchFrom portFlag s = Some d \/ searchFrom portVariable s = Some d
  \/ searchFrom portOfAddress s = Some d ->
  d <> [] /\ forallb isDigit d = true.
Proof.
  intros [H | [H | H]]; apply searchFrom_found in H as [u H].
  - unfold portFlag in H. apply matchAltCI_found in H as [v H].
    destruct (wsPlus v); [ | done ]. by apply digitsCapture_digits in H.
  - unfold portVariable in H.
    repeat match type of H with
           | (_ ← ?m; _) = Some _ => destruct m; simpl in H; [ | done ]
           end.
    by apply digitsCapture_digits in H.
  - unfold portOfAddress in H.
    repeat match type of H with
           | (_ ← ?m; _) = Some _ => destruct m; simpl in H; [ | done ]
           end.
    by apply digitsCapture_digits in H.
Qed.

(** X18.  [detectPort] never returns the empty string, and it returns a
    run of digits whenever the port of the project and the default port,
    where they are set, are runs of digits: what it reads from the start
    command is always one. *)
Theorem detectPort_is_a_port (project : option Project.t)
    (defaultPort : jsstring) :
  detectPort project defaultPort <> []
  /\ (forallb isDigit (from_option Project.port [] project) = true ->
      forallb isDigit defaultPort = true ->
      forallb isDigit (detectPort project defaultPort) = true).
Proof.
  assert (Hfall : orElse defaultPort (str "3000") <> []
                  /\ (forallb isDigit defaultPort = true ->
                      forallb isDigit (orElse defaultPort (str "3000"))
                      = true)).
  { unfold orElse. by destruct defaultPort. }
  unfold detectPort. cbv zeta.
  destruct project as [p|]; [ | split; [ apply Hfall | intros _; apply Hfall ] ].
  simpl from_option.
  destruct (truthyString (Project.port p)) eqn:Ep.
  { apply truthyString_spec in Ep. split; [ done | by intros ? _ ]. }
  destruct (truthyString (Project.startCommand p));
    [ | split; [ apply Hfall | intros _; apply Hfall ] ].
  destruct (searchFrom portFlag _) as [d|] eqn:E1.
  { destruct (port_patterns_digits _ d (or_introl E1)). by split. }
  destruct (searchFrom portVariable _) as [d|] eqn:E2.
  { destruct (port_patterns_digits _ d (or_intror (or_introl E2))).
    by split. }
  destruct (searchFrom portOfAddress _) as [d|] eqn:E3.
  { destruct (port_patterns_digits _ d (or_intror (or_intror E3))).
    by split. }
  repeat (destruct (includes _ _); simpl orb; cbv iota; [ by split | ]).
  split; [ apply Hfall | intros _; apply Hfall ].
Qed.

(** the port of a flag wins over a port variable and over the default of
    the dev server named in the command *)
Example detectPort_reads_flag :
  detectPort (Some sampleProject) (str "4000") = str "8080"
  /\ detectPort
       (Some (Project.mk (str "x") [] (str "PORT = 81 vite -P 5000") []))
       [] = str "5000"
  /\ detectPort (Some (Project.mk (str "x") [] (str "vite dev") [])) []
     = str "5173"
  /\ detectPort None [] = str "3000".
Proof. vm_compute. repeat split. Qed.

(** ** The running apps of the backend *)

Lemma existsb_key (M : list (jsstring * RunningApp.t)) k :
  existsb (fun entry => strEqb (fst entry) k) M = true <-> In k (map fst M).
Proof.
  rewrite existsb_exists, in_map_iff. split.
  - intros (e & Hin & He). apply strEqb_eq in He. by exists e.
  - intros (e & He & Hin). exists e. split; [ done | by apply strEqb_eq ].
Qed.

Lemma orElse_nil s : orElse s [] = s.
Proof. by destruct s. Qed.

Lemma addProcess_cases M proc :
  (addProcess M proc = M ++ [entryOf proc]
   /\ trim (Process.ProcessName proc) <> []
   /\ ~ In (fst (entryOf proc)) (map fst M))
  \/ (addProcess M proc = M
      /\ (trim (Process.ProcessName proc) <> [] ->
          In (fst (entryOf proc)) (map fst M))).
Proof.
  unfold addProcess. cbv zeta.
  destruct (truthyString (Process.ProcessName proc)) eqn:Ep.
  - destruct (truthyString (trim (Process.ProcessName proc))) eqn:Et.
    + destruct (existsb _ M) eqn:Ee; simpl.
      * right. split; [ done | ]. intros _. by apply existsb_key.
      * left. unfold entryOf. rewrite orElse_nil.
        split; [ done | ]. split; [ by apply truthyString_spec | ].
        rewrite <- existsb_key. simpl. congruence.
    + right. split; [ done | ]. intros H. apply truthyString_spec in H.
      congruence.
  - right. split; [ done | ]. intros H. apply trim_not_empty in H.
    apply truthyString_spec in H. congruence.
Qed.

Lemma fold_addProcess procs M :
  exists extra,
    fold_left addProcess procs M = M ++ extra
    /\ Forall (fun e => exists proc,
                 In proc procs /\ e = entryOf proc
                 /\ trim (Process.ProcessName proc) <> []) extra
    /\ (NoDup (map fst M) -> NoDup (map fst (M ++ extra)))
    /\ (forall proc,
          In proc procs -> trim (Process.ProcessName proc) <> [] ->
          In (fst (entryOf proc)) (map fst (M ++ extra))).
Proof.
  revert M. induction procs as [|proc procs IH]; intros M; simpl.
  - exists []. rewrite app_nil_r. repeat split; [ done | done | tauto ].
  - destruct (IH (addProcess M proc)) as (extra & Hf & Hall & Hnd & Hcov).
    destruct (addProcess_cases M proc) as [(E & Hne & Hnew) | (E & Hold)];
      rewrite E in *.
    + exists (entryOf proc :: extra).
      rewrite <- app_assoc in Hf, Hnd, Hcov. simpl in Hf, Hnd, Hcov.
      split; [ done | ]. split; [ | split ].
      * constructor; [ by exists proc; split; [ left | ] | ].
        eapply Forall_impl; [ exact Hall | ].
        intros e (p & Hp & He). exists p. split; [ by right | done ].
      * intros HM. apply Hnd. rewrite map_app. simpl.
        apply NoDup_app. split; [ done | ]. split.
        -- intros k Hk Hk2. apply list_elem_of_singleton in Hk2 as ->.
           apply Hnew. by apply list_elem_of_In.
        -- apply NoDup_singleton.
      * intros p [-> | Hp] Hpn; [ | by apply Hcov ].
        rewrite map_app. simpl. apply in_or_app. right. by left.
    + exists extra. split; [ done | ]. split; [ | split; [ done | ] ].
      * eapply Forall_impl; [ exact Hall | ].
        intros e (p & Hp & He). exists p. split; [ by right | done ].
      * intros p [-> | Hp] Hpn; [ | by apply Hcov ].
        rewrite map_app. apply in_or_app. left. by apply Hold.
Qed.

Lemma running_apps_distinct_names `{Collator} (processes : list Process.t) :
  NoDup (map (fun app => toLowerCase (RunningApp.name app))
           (runningApps processes)).
Proof.
  unfold runningApps.
  destruct (fold_addProcess processes []) as (M & Hf & Hall & Hnd & _).
  simpl in Hf, Hnd. rewrite Hf. specialize (Hnd (NoDup_nil_2)).
  rewrite List.Forall_forall in Hall.
  rewrite arraySort_perm, map_map.
  replace (map (fun x => toLowerCase (RunningApp.name (snd x))) M)
    with (map fst M); [ done | ].
  apply map_ext_in. intros e He.
  destruct (Hall e He) as (p & _ & -> & _). done.
Qed.

(** X19.  The running apps the backend answers with have names that are
    pairwise different, also up to case, not empty and without white space
    at the ends; each one is a process of the list with its name trimmed
    and its window title, each process with a name is there under its
    name up to case, and the apps are in the order of the collation of
    their names. *)
Theorem running_apps_are_distinct `{Collator}
    (processes : list Process.t) :
  NoDup (map (fun app => toLowerCase (RunningApp.name app))
           (runningApps processes))
  /\ (forall app,
        In app (runningApps processes) ->
        RunningApp.name app <> []
        /\ trim (RunningApp.name app) = RunningApp.name app
        /\ exists proc,
             In proc processes
             /\ RunningApp.name app = trim (Process.ProcessName proc)
             /\ RunningApp.windowTitle app = Process.MainWindowTitle proc)
  /\ (forall proc,
        In proc processes -> trim (Process.ProcessName proc) <> [] ->
        exists app,
          In app (runningApps processes)
          /\ toLowerCase (RunningApp.name app)
             = toLowerCase (trim (Process.ProcessName proc)))
  /\ StronglySorted
       (fun a b => localeCompare (RunningApp.name a) (RunningApp.name b) <= 0)
       (runningApps processes).
Proof.
  unfold runningApps.
  destruct (fold_addProcess processes []) as (M & Hf & Hall & Hnd & Hcov).
  simpl in Hf, Hnd, Hcov. rewrite Hf.
  specialize (Hnd (NoDup_nil_2)).
  rewrite List.Forall_forall in Hall.
  assert (Hkeys : map (fun app => toLowerCase (RunningApp.name app))
                    (map snd M) = map fst M).
  { rewrite map_map. apply map_ext_in. intros e He.
    destruct (Hall e He) as (p & _ & -> & _). done. }
  split; [ | split; [ | split ] ].
  - rewrite arraySort_perm. by rewrite Hkeys.
  - intros app Hin. apply list_elem_of_In in Hin.
    rewrite arraySort_perm in Hin. apply list_elem_of_In in Hin.
    apply in_map_iff in Hin as (e & <- & He).
    destruct (Hall e He) as (p & Hp & -> & Hne). simpl.
    split; [ done | ]. split; [ apply trim_idem | by exists p ].
  - intros proc Hp Hne. specialize (Hcov proc Hp Hne).
    apply in_map_iff in Hcov as (e & He & Hin).
    exists (snd e). split.
    + apply list_elem_of_In. rewrite arraySort_perm. apply list_elem_of_In.
      by apply in_map.
    + destruct (Hall e Hin) as (p & _ & -> & _). simpl in *. done.
  - apply arraySort_sorted.
    + intros x y z. apply localeCompare_trans.
    + intros x y. rewrite isNegative_inject. lia.
    + intros x y. rewrite isNegative_inject. intros Hc.
      apply Z.ltb_ge in Hc. by apply localeCompare_total.
Qed.

Lemma filterAndSortApps_NoDup `{Collator} term apps :
  NoDup (map (fun app => toLowerCase (RunningApp.name app)) apps) ->
  NoDup (map (fun app => toLowerCase (RunningApp.name app))
           (filterAndSortApps term apps)).
Proof.
  intros Hnd. unfold filterAndSortApps. cbv zeta.
  destruct (truthyString term); rewrite arraySort_perm; [ | done ].
  eapply sublist_NoDup; [ exact Hnd | ].
  apply fmap_sublist, sublist_filter.
Qed.

(** X20.  The quit list and the switch list built from the answer of the
    backend never show a process twice, not even in another case, so at
    most one entry is the exact match that the sort puts first. *)
Theorem running_lists_have_no_duplicates `{Collator}
    (intentValue : jsstring) (processes : list Process.t) :
  NoDup (map (fun s => toLowerCase (Suggestion.path s))
           (quitSuggestions intentValue (runningApps processes)))
  /\ NoDup (map (fun s => toLowerCase (Suggestion.path s))
              (switchSuggestions intentValue (runningApps processes))).
Proof.
  pose proof (running_apps_distinct_names processes) as Hnd.
  unfold quitSuggestions, switchSuggestions. rewrite !map_map. simpl.
  split; by apply filterAndSortApps_NoDup.
Qed.

(** ** One entry per app name *)

Lemma addUnique_cases w st app :
  uniqueInv st ->
  (addUnique w st app = (fst st ++ [app], {[ nameKey app ]} ∪ snd st)
   /\ InstalledApp.IsUWP app = w /\ ~ In (nameKey app) (map nameKey (fst st)))
  \/ (addUnique w st app = st
      /\ (InstalledApp.IsUWP app = w ->
          In (nameKey app) (map nameKey (fst st)))).
Proof.
  intros [_ Hseen]. destruct st as [u seen]. unfold addUnique. simpl in *.
  fold (nameKey app).
  destruct (Bool.eqb (InstalledApp.IsUWP app) w) eqn:Ew.
  - apply Bool.eqb_prop in Ew. case_bool_decide as Hk; simpl.
    + right. split; [ done | ]. intros _. by apply Hseen.
    + left. split; [ done | ]. split; [ done | ]. by rewrite <- Hseen.
  - right. split; [ done | ]. intros Hw. rewrite Hw in Ew.
    by rewrite Bool.eqb_reflx in Ew.
Qed.

Lemma fold_addUnique w allApps st :
  uniqueInv st ->
  exists extra,
    fst (fold_left (addUnique w) allApps st) = fst st ++ extra
    /\ uniqueInv (fold_left (addUnique w) allApps st)
    /\ Forall (fun app => In app allApps /\ InstalledApp.IsUWP app = w) extra
    /\ (forall app,
          In app allApps -> InstalledApp.IsUWP app = w ->
          In (nameKey app) (map nameKey (fst st ++ extra))).
Proof.
  revert st. induction allApps as [|app l IH]; intros st Hinv; simpl.
  - exists []. rewrite app_nil_r.
    split; [ done | ]. split; [ done | ]. split; [ constructor | ].
    by intros ? [].
  - destruct (addUnique_cases w st app Hinv) as [(E & Hw & Hnew) | (E & Hold)].
    + assert (Hinv' : uniqueInv (addUnique w st app)).
      { rewrite E. destruct Hinv as [Hnd Hseen]. split; simpl.
        - rewrite map_app. apply NoDup_app. split; [ done | ].
          split; [ | apply NoDup_singleton ].
          intros k Hk Hk2. apply list_elem_of_singleton in Hk2 as ->.
          apply Hnew. by apply list_elem_of_In.
        - intros k. rewrite map_app, in_app_iff, elem_of_union, Hseen.
          rewrite elem_of_singleton. simpl. intuition. }
      destruct (IH _ Hinv') as (extra & Hf & Hi & Hall & Hcov).
      rewrite E in Hf, Hcov. simpl in Hf, Hcov.
      rewrite <- app_assoc in Hf, Hcov. simpl in Hf, Hcov.
      rewrite E in Hi |- *.
      exists (app :: extra). split; [ done | ]. split; [ done | ].
      split.
      * constructor; [ split; [ by left | done ] | ].
        eapply Forall_impl; [ exact Hall | ]. intros a [Ha ?].
        split; [ by right | done ].
      * intros a [-> | Ha] Hu; [ | by apply Hcov ].
        rewrite map_app. apply in_or_app. right. by left.
    + rewrite E. destruct (IH _ Hinv) as (extra & Hf & Hi & Hall & Hcov).
      exists extra. split; [ done | ]. split; [ done | ]. split.
      * eapply Forall_impl; [ exact Hall | ]. intros a [Ha ?].
        split; [ by right | done ].
      * intros a [-> | Ha] Hu; [ | by apply Hcov ].
        rewrite map_app. apply in_or_app. left. by apply Hold.
Qed.

(** X21.  The installed apps after the merge have names that are pairwise
    different, also up to case; every app of the merged list is there under
    its name up to case, by an entry that is no UWP app when the list has
    an app of that name that is none; and the entries that are no UWP apps
    come before the UWP apps. *)
Theorem unique_apps_by_name (allApps : list InstalledApp.t) :
  NoDup (map (fun app => toLowerCase (InstalledApp.Name app))
           (uniqueApps allApps))
  /\ (forall app,
        In app allApps ->
        exists entry,
          In entry (uniqueApps allApps) /\ In entry allApps
          /\ toLowerCase (InstalledApp.Name entry)
             = toLowerCase (InstalledApp.Name app)
          /\ (InstalledApp.IsUWP app = false ->
              InstalledApp.IsUWP entry = false))
  /\ (forall entry, In entry (uniqueApps allApps) -> In entry allApps)
  /\ exists desktop uwp,
       uniqueApps allApps = desktop ++ uwp
       /\ Forall (fun app => InstalledApp.IsUWP app = false) desktop
       /\ Forall (fun app => InstalledApp.IsUWP app = true) uwp.
Proof.
  unfold uniqueApps.
  assert (Hinv0 : uniqueInv ([], ∅)).
  { split; simpl; [ apply NoDup_nil_2 | ]. intros k. set_solver. }
  destruct (fold_addUnique false allApps _ Hinv0)
    as (l1 & Hf1 & Hinv1 & Hall1 & Hcov1).
  destruct (fold_addUnique true allApps _ Hinv1)
    as (l2 & Hf2 & Hinv2 & Hall2 & Hcov2).
  simpl in Hf1, Hcov1. rewrite Hf1 in Hf2, Hcov2. rewrite Hf2.
  destruct Hinv2 as [Hnd _]. rewrite Hf2 in Hnd. fold nameKey.
  rewrite List.Forall_forall in Hall1, Hall2.
  assert (Hsub : forall entry, In entry (l1 ++ l2) -> In entry allApps).
  { intros e [He | He]%in_app_iff; [ by apply Hall1 | by apply Hall2 ]. }
  split; [ exact Hnd | ]. split; [ | split; [ exact Hsub | ] ].
  - intros app Hin. destruct (InstalledApp.IsUWP app) eqn:Eu.
    + apply (Hcov2 app Hin) in Eu.
      apply in_map_iff in Eu as (e & He & Hine).
      exists e. repeat split; [ done | by apply Hsub | done | done ].
    + apply (Hcov1 app Hin) in Eu.
      apply in_map_iff in Eu as (e & He & Hine).
      exists e. split; [ apply in_or_app; by left | ].
      split; [ by apply Hall1 | ]. split; [ done | ].
      intros _. by apply Hall1.
  - exists l1, l2. split; [ done | ].
    split; apply List.Forall_forall; intros a Ha;
      [ by apply Hall1 | by apply Hall2 ].
Qed.

(** ** Pending confirmations, whatever the answer *)

(** running the confirmed step leaves the pending confirmations alone and
    answers 200 or 500 *)
Lemma resume_keeps_pending w c p m :
  snd (fst (Server.resume w c p m)) = m
  /\ (Server.status (fst (fst (Server.resume w c p m))) = 200
      \/ Server.status (fst (fst (Server.resume w c p m))) = 500).
Proof.
  unfold Server.resume. cbv zeta.
  destruct (Server.type c); unfold Server.bind, Server.perform, Server.ret;
    simpl; repeat case_match; simplify_eq; simpl; auto.
Qed.

(** X22.  A confirmation is answered once: a request that is answered 400
    or 404 performs nothing and leaves the pending confirmations as they
    are; any other answer, be it cancelled, executed or failed, was given
    for a pending id, which is then removed, and every later request with
    that id is answered 404 and performs nothing.  No request adds a
    pending confirmation. *)
Theorem confirmation_answered_once (w : Server.World)
    (req : Server.Request) (m : Server.Pending) :
  let response := fst (fst (Server.confirm w req m)) in
  let pending := snd (fst (Server.confirm w req m)) in
  let trace := snd (Server.confirm w req m) in
  (Server.status response = 400 \/ Server.status response = 404 ->
   pending = m /\ trace = [])
  /\ (Server.status response <> 400 -> Server.status response <> 404 ->
      exists id c,
        Server.confirmationId req = Server.JString id
        /\ m !! id = Some c
        /\ pending = delete id m
        /\ forall w' again,
             Server.confirmationId again = Server.JString id ->
             Server.confirmed again <> Server.JUndefined ->
             Server.confirm w' again pending
             = (Server.notFound, pending, []))
  /\ pending ⊆ m.
Proof.
  cbv zeta.
  destruct (Server.confirm w req m) as [[response pending] trace] eqn:E.
  simpl. unfold Server.confirm in E.
  destruct (negb (Server.truthy (Server.confirmationId req))
            || match Server.confirmed req with
               | Server.JUndefined => true
               | _ => false
               end) eqn:Eb.
  { injection E as <- <- <-. simpl.
    split; [ done | ]. split; [ done | reflexivity ]. }
  unfold Server.bind at 1 in E. unfold Server.getPending in E.
  destruct (match Server.confirmationId req with
            | Server.JString s => m !! s
            | _ => None
            end) as [c|] eqn:Ec.
  2: { injection E as <- <- <-. simpl. split; [ done | ].
       split; [ intros _ Hs; exfalso; by apply Hs | reflexivity ]. }
  destruct (Server.confirmationId req) as [ | | | |id] eqn:Eid;
    try discriminate.
  assert (Hagain : forall w' again,
            Server.confirmationId again = Server.JString id ->
            Server.confirmed again <> Server.JUndefined ->
            Server.confirm w' again (delete id m)
            = (Server.notFound, delete id m, [])).
  { intros w' again Hid Hc. unfold Server.confirm. rewrite Hid.
    apply orb_false_iff in Eb as [Eb _]. rewrite Eb. simpl orb.
    destruct (Server.confirmed again); [ done | .. ];
      change (false || false) with false;
      cbv iota; unfold Server.bind, Server.getPending; cbv beta iota;
      by rewrite lookup_delete_eq. }
  unfold Server.bind, Server.deletePending in E.
  destruct (negb (Server.truthy (Server.confirmed req))).
  - injection E as <- <- <-. simpl. split; [ by intros [? | ?] | ].
    split; [ | apply delete_subseteq ].
    intros _ _. by exists id, c.
  - destruct (resume_keeps_pending w c (Server.path req) (delete id m))
      as [Hm Hs].
    destruct (Server.resume w c (Server.path req) (delete id m))
      as [[resp m'] t]. simpl in *. subst m'.
    injection E as <- <- <-.
    split; [ intros [? | ?]; lia | ].
    split; [ | apply delete_subseteq ].
    intros _ _. by exists id, c.
Qed.

(** ** The app search: scores outside the first three tiers *)

Lemma ratio_le_one a b :
  0 <= a <= b -> 0 < b -> (0 <= inject_Z a / inject_Z b <= 1)%Q.
Proof.
  intros Ha Hb.
  assert (Hb' : (0 < inject_Z b)%Q).
  { change 0%Q with (inject_Z 0). rewrite <- Zlt_Qlt. lia. }
  split.
  - apply Qle_shift_div_l; [ done | ]. rewrite Qmult_0_l.
    change 0%Q with (inject_Z 0). rewrite <- Zle_Qle. lia.
  - apply Qle_shift_div_r; [ done | ]. rewrite Qmult_1_l.
    rewrite <- Zle_Qle. lia.
Qed.

Lemma wordMatch_bound qWord nameWords s :
  wordMatch qWord nameWords = Some s -> (0 <= s <= 2000)%Q.
Proof.
  induction nameWords as [|n l IH]; simpl; [ done | ].
  destruct (startsWith n qWord) eqn:E1.
  { intros [= <-]. apply startsWith_length, lengthRatio_bounds in E1. lra. }
  destruct (includes n qWord) eqn:E2.
  { intros [= <-]. apply includes_length, lengthRatio_bounds in E2. lra. }
  destruct (startsWith qWord n && _) eqn:E3; [ | exact IH ].
  apply andb_true_iff in E3 as [E3 _].
  intros [= <-]. apply startsWith_length, lengthRatio_bounds in E3. lra.
Qed.

Lemma wordMatches_fold_bound nameWords queryWords acc :
  0 <= fst acc -> (0 <= snd acc <= 2000 * inject_Z (fst acc))%Q ->
  let r :=
    fold_left
      (fun acc qWord =>
         match wordMatch qWord nameWords with
         | Some s => (fst acc + 1, (snd acc + s)%Q)
         | None => acc
         end)
      queryWords acc in
  fst acc <= fst r <= fst acc + Z.of_nat (length queryWords)
  /\ (0 <= snd r <= 2000 * inject_Z (fst r))%Q.
Proof.
  revert acc. induction queryWords as [|w l IH]; intros acc H0 Hs; simpl.
  - split; [ lia | done ].
  - destruct (wordMatch w nameWords) as [s|] eqn:E.
    + apply wordMatch_bound in E.
      destruct (IH (fst acc + 1, (snd acc + s)%Q)) as [H1 H2].
      * simpl. lia.
      * simpl. rewrite inject_Z_plus. change (inject_Z 1) with 1%Q. lra.
      * simpl in H1. split; [ lia | done ].
    + destruct (IH acc H0 Hs) as [H1 H2]. split; [ lia | done ].
Qed.

Lemma wordMatches_bound queryWords nameWords :
  0 <= fst (wordMatches queryWords nameWords)
    <= Z.of_nat (length queryWords)
  /\ (0 <= snd (wordMatches queryWords nameWords)
      <= 2000 * inject_Z (fst (wordMatches queryWords nameWords)))%Q.
Proof.
  unfold wordMatches.
  destruct (wordMatches_fold_bound nameWords queryWords (0, 0%Q))
    as [H1 H2]; simpl; [ lia | split; by vm_compute | ].
  simpl in H1. split; [ lia | done ].
Qed.

Lemma sequenceMatches_bound nameLower queryLower :
  0 <= sequenceMatches nameLower queryLower
    <= Z.of_nat (length queryLower).
Proof.
  revert queryLower. induction nameLower as [|n l IH]; intros q; simpl.
  - destruct q; simpl; lia.
  - destruct q as [|c q]; [ simpl; lia | ].
    destruct (charEqb n c).
    + specialize (IH q). simpl length. lia.
    + apply IH.
Qed.

(** a name that is not the query scores below an exact match when the
    query has at most four words *)
Lemma scoreApp_below_exact query words name :
  (length words <= 4)%nat -> nameTier query name <> 0 ->
  (scoreApp (toLowerCase query) words name < 10000)%Q.
Proof.
  intros Hw. unfold scoreApp, nameTier. cbv zeta.
  destruct (strEqb _ _); [ done | ]. intros _.
  destruct (startsWith _ _) eqn:Es.
  { apply startsWith_length, lengthRatio_bounds in Es. lra. }
  destruct (includes _ _) eqn:Ei.
  { apply includes_length, lengthRatio_bounds in Ei. lra. }
  pose proof (wordMatches_bound words (splitWords (toLowerCase name)))
    as [Hm Hs].
  destruct (wordMatches words (splitWords (toLowerCase name))) as [m ws].
  simpl in Hm, Hs.
  pose proof (sequenceMatches_bound (toLowerCase name) (toLowerCase query))
    as Hf.
  set (found := sequenceMatches (toLowerCase name) (toLowerCase query)) in *.
  assert (Hscore :
    ((if 0 <? m
      then ws + (if m =? Z.of_nat (length words) then 1000 else 0)
           + inject_Z m / inject_Z (Z.of_nat (length words)) * 500
      else 0) <= 9500)%Q).
  { destruct (0 <? m) eqn:E0; [ | lra ]. apply Z.ltb_lt in E0.
    destruct (ratio_le_one m (Z.of_nat (length words))) as [_ Hr];
      [ lia | lia | ].
    assert (Hm4 : (inject_Z m <= 4)%Q).
    { change 4%Q with (inject_Z 4). rewrite <- Zle_Qle. lia. }
    destruct (m =? _); lra. }
  assert (Hseq : 0 < found ->
            (inject_Z found / inject_Z (Z.of_nat (length (toLowerCase query)))
             * 300 <= 300)%Q).
  { intros Hpos.
    destruct (ratio_le_one found (Z.of_nat (length (toLowerCase query))))
      as [_ Hr]; [ lia | lia | lra ]. }
  destruct (Qeq_bool _ 0 || Qltb _ 100).
  - destruct (0 <? found) eqn:E0.
    + apply Z.ltb_lt in E0. specialize (Hseq E0). lra.
    + lra.
  - lra.
Qed.

Lemma StronglySorted_take {A} (R : A -> A -> Prop) n l :
  StronglySorted R l -> StronglySorted R (take n l).
Proof.
  revert l. induction n as [|n IH]; intros l Hl; [ constructor | ].
  destruct l as [|x l]; [ constructor | ]. simpl.
  apply StronglySorted_inv in Hl as [Hl Hx].
  constructor; [ by apply IH | ].
  apply List.Forall_forall. intros y Hy.
  rewrite List.Forall_forall in Hx. apply Hx.
  apply list_elem_of_In in Hy. apply list_elem_of_In.
  apply list_elem_of_lookup_1 in Hy as [i Hi].
  apply lookup_take_Some in Hi as [Hi _].
  by eapply list_elem_of_lookup_2.
Qed.

(** X23.  For a query of at most four words an app whose name is the query
    is listed before every app whose name is not, and its score is 10000;
    all listed scores are positive and fall along the list, every listed
    name is the name of an installed app, and with a limit that is not
    negative the list is no longer than the limit. *)
Theorem exact_match_is_first (query : jsstring) (limit : Z)
    (apps : list InstalledApp.t) :
  trim query = query ->
  (length (splitWords (toLowerCase query)) <= 4)%nat ->
  (forall i j a b,
     searchApps query limit apps !! i = Some a ->
     searchApps query limit apps !! j = Some b ->
     nameTier query (Suggestion.name a) = 0 ->
     nameTier query (Suggestion.name b) <> 0 ->
     (i < j)%nat /\ Suggestion.score a = 10000%Q)
  /\ StronglySorted
       (fun a b => (0 < Suggestion.score b <= Suggestion.score a)%Q)
       (searchApps query limit apps)
  /\ (forall a,
        In a (searchApps query limit apps) ->
        (0 < Suggestion.score a)%Q
        /\ exists app, In app apps /\ Suggestion.name a = InstalledApp.Name app)
  /\ (0 <= limit ->
      Z.of_nat (length (searchApps query limit apps)) <= limit).
Proof.
  intros Ht Hw.
  assert (Hlen : 0 <= limit ->
            Z.of_nat (length (searchApps query limit apps)) <= limit).
  { intros Hl. unfold searchApps.
    destruct (_ || _); [ simpl; lia | ].
    destruct (_ =? _); [ simpl; lia | ]. cbv zeta.
    rewrite length_map. unfold slice0. cbv zeta. rewrite length_take.
    replace (limit <? 0) with false by (symmetry; apply Z.ltb_ge; lia).
    lia. }
  destruct (searchApps_prefix query limit apps Ht) as [n Hn].
  rewrite Hn in *. clear Hn.
  pose proof (rankedApps_descending query apps) as Hsorted.
  assert (Helem : forall sa,
            In sa (take n (rankedApps (toLowerCase query) apps)) ->
            exists app,
              In app apps /\ sa = (app, scoreOf (toLowerCase query) app)
              /\ (0 < scoreOf (toLowerCase query) app)%Q).
  { intros sa Hin. apply list_elem_of_In in Hin.
    apply list_elem_of_lookup_1 in Hin as [i Hi].
    apply lookup_take_Some in Hi as [Hi _].
    apply list_elem_of_lookup_2, rankedApps_elem in Hi
      as (app & Hin & -> & Hp).
    exists app. split; [ by apply list_elem_of_In | done ]. }
  split; [ | split; [ | split; [ | exact Hlen ] ] ].
  - intros i j a b Hi Hj Ha Hb.
    rewrite list_lookup_fmap in Hi, Hj.
    destruct (take n _ !! i) as [sa|] eqn:Ei; [ | done ].
    destruct (take n _ !! j) as [sb|] eqn:Ej; [ | done ].
    injection Hi as <-. injection Hj as <-. simpl in Ha, Hb |- *.
    destruct (Helem sa) as (app1 & _ & -> & _);
      [ apply list_elem_of_In; by eapply list_elem_of_lookup_2 | ].
    destruct (Helem sb) as (app2 & _ & -> & _);
      [ apply list_elem_of_In; by eapply list_elem_of_lookup_2 | ].
    simpl in *. unfold scoreOf.
    destruct (scoreApp_tier query (splitWords (toLowerCase query))
                (InstalledApp.Name app1)) as (H0 & _).
    specialize (H0 Ha).
    pose proof (scoreApp_below_exact query (splitWords (toLowerCase query))
                  (InstalledApp.Name app2) Hw Hb) as Hlt.
    split; [ | done ].
    apply lookup_take_Some in Ei as [Ei _].
    apply lookup_take_Some in Ej as [Ej _].
    destruct (decide (i < j)%nat) as [ | Hge ]; [ done | exfalso ].
    destruct (decide (i = j)) as [-> | Hne].
    + rewrite Ei in Ej. injection Ej as _ Heq. unfold scoreOf in Heq.
      rewrite Heq in H0. rewrite H0 in Hlt. lra.
    + assert (Hji : (j < i)%nat) by lia.
      pose proof (StronglySorted_lookup _ _ j i _ _ Hsorted Ej Ei Hji) as Hr.
      simpl in Hr. unfold scoreOf in Hr. rewrite H0 in Hr. lra.
  - apply StronglySorted_map.
    pose proof (StronglySorted_take _ n _ Hsorted) as Hpre.
    revert Hpre Helem.
    generalize (take n (rankedApps (toLowerCase query) apps)).
    induction l as [|x l IH]; intros Hs He; [ constructor | ].
    apply StronglySorted_inv in Hs as [Hs Hx].
    constructor; [ apply IH; [ done | intros; apply He; by right ] | ].
    apply List.Forall_forall. intros y Hy.
    rewrite List.Forall_forall in Hx. specialize (Hx y Hy).
    destruct (He y (or_intror Hy)) as (app & _ & -> & Hp).
    simpl in *. split; done.
  - intros a Hin. apply in_map_iff in Hin as (sa & <- & Hin).
    destruct (Helem sa Hin) as (app & Happ & -> & Hp). simpl.
    split; [ done | by exists app ].
Qed.

Lemma exact_match_is_first_witness :
  (forall i j a b,
     searchApps (str "code") 10 sampleApps !! i = Some a ->
     searchApps (str "code") 10 sampleApps !! j = Some b ->
     nameTier (str "code") (Suggestion.name a) = 0 ->
     nameTier (str "code") (Suggestion.name b) <> 0 ->
     (i < j)%nat /\ Suggestion.score a = 10000%Q)
  /\ StronglySorted
       (fun a b => (0 < Suggestion.score b <= Suggestion.score a)%Q)
       (searchApps (str "code") 10 sampleApps)
  /\ (forall a,
        In a (searchApps (str "code") 10 sampleApps) ->
        (0 < Suggestion.score a)%Q
        /\ exists app,
             In app sampleApps /\ Suggestion.name a = InstalledApp.Name app)
  /\ (0 <= 10 ->
      Z.of_nat (length (searchApps (str "code") 10 sampleApps)) <= 10).
Proof.
  apply (exact_match_is_first (str "code") 10 sampleApps);
    [ reflexivity | vm_compute; lia ].
Defined.

(** with five words the bound is passed: the app whose name is the query
    comes second, after an app whose name has the five words in another
    order *)
Example exact_match_is_second :
  map Suggestion.name
    (searchApps (str "a b c d e") 10
       [sampleApp "a b c d e"; sampleApp "e d c b a"])
  = [str "e d c b a"; str "a b c d e"].
Proof. vm_compute. reflexivity. Qed.

(** ** The mode of the window *)

Lemma window_step_in_sync e st windowMode :
  windowMode = Window.modeOf st ->
  Window.received windowMode (snd (Window.handle e st))
  = Window.modeOf (fst (Window.handle e st)).
Proof.
  intros ->. destruct st as [m f], e as [ | | [|] | [|] ]; destruct m, f;
    reflexivity.
Qed.

(** X24.  The renderer always holds the mode of the main process: whatever
    events occur, each change of [isMinimalMode] is sent to the renderer, so
    that [windowMode] is "minimal" exactly when [isMinimalMode] is true.
    And a window that is hidden and shown again by the toggle is in minimal
    mode afterwards, whatever mode it was hidden in. *)
Theorem window_mode_in_sync (events : list Window.Event) :
  snd (Window.run events Window.initial Window.minimal)
  = Window.modeOf (fst (Window.run events Window.initial Window.minimal))
  /\ forall st,
       Window.isMinimalMode
         (fst (Window.handle (Window.ToggleVisibility false)
                 (fst (Window.handle (Window.ToggleVisibility true) st))))
       = true.
Proof.
  split.
  - unfold Window.run.
    assert (H : forall st windowMode,
              windowMode = Window.modeOf st ->
              snd (fold_left
                     (fun acc e =>
                        let '(st', messages) := Window.handle e (fst acc) in
                        (st', Window.received (snd acc) messages))
                     events (st, windowMode))
              = Window.modeOf
                  (fst (fold_left
                          (fun acc e =>
                             let '(st', messages) :=
                               Window.handle e (fst acc) in
                             (st', Window.received (snd acc) messages))
                          events (st, windowMode)))).
    { induction events as [|e l IH]; intros st windowMode Hs; simpl;
        [ done | ].
      pose proof (window_step_in_sync e st windowMode Hs) as Hstep.
      destruct (Window.handle e st) as [st' messages]. simpl in *.
      by apply IH. }
    by apply H.
  - intros [[|] [|]]; reflexivity.
Qed.

(** ** New confirmation ids *)

Lemma numberToString_digits n : forallb isDigit (numberToString n) = true.
Proof.
  unfold numberToString. generalize (N.to_uint n).
  induction u; simpl; by rewrite ?IHu.
Qed.

Lemma str_inj a b : str a = str b -> a = b.
Proof.
  unfold str. intros H.
  by rewrite <- (string_of_list_ascii_of_string a),
    <- (string_of_list_ascii_of_string b), H.
Qed.

Lemma numberToString_inj a b : numberToString a = numberToString b -> a = b.
Proof.
  unfold numberToString. intros H. apply str_inj in H.
  apply (f_equal DecimalString.NilEmpty.uint_of_string) in H.
  rewrite !DecimalString.NilEmpty.usu in H. injection H as H.
  by rewrite <- (DecimalN.Unsigned.of_to a), <- (DecimalN.Unsigned.of_to b), H.
Qed.

Lemma takeClass_app cls a c r :
  forallb cls a = true -> cls c = false ->
  takeClass cls (a ++ c :: r) = a.
Proof.
  intros Ha Hc. induction a as [|x a IH]; simpl.
  - by rewrite Hc.
  - simpl in Ha. apply andb_true_iff in Ha as [Hx Ha].
    by rewrite Hx, IH.
Qed.

(** the counter can be read off an id *)
Lemma idOf_counter now counter :
  takeClass isDigit (rev (Confirmations.idOf now counter))
  = rev (numberToString counter).
Proof.
  unfold Confirmations.idOf. rewrite !rev_app_distr.
  change (rev (str "_")) with (("_"%char : ascii) :: []).
  rewrite <- !app_assoc. simpl app.
  apply takeClass_app; [ | done ].
  rewrite forallb_rev. apply numberToString_digits.
Qed.

Lemma idOf_inj now1 counter1 now2 counter2 :
  Confirmations.idOf now1 counter1 = Confirmations.idOf now2 counter2 ->
  counter1 = counter2.
Proof.
  intros H. apply (f_equal (fun s => takeClass isDigit (rev s))) in H.
  rewrite !idOf_counter in H.
  apply (f_equal (@rev ascii)) in H. rewrite !rev_involutive in H.
  by apply numberToString_inj.
Qed.

Lemma confirm_pending_subseteq w req m :
  snd (fst (Server.confirm w req m)) ⊆ m.
Proof.
  unfold Server.confirm.
  destruct (_ || _); [ reflexivity | ].
  unfold Server.bind at 1. unfold Server.getPending.
  destruct (match Server.confirmationId req with
            | Server.JString s => m !! s
            | _ => None
            end) as [c|]; [ | reflexivity ].
  unfold Server.bind, Server.deletePending.
  destruct (negb (Server.truthy (Server.confirmed req))).
  - simpl. destruct (Server.confirmationId req); try reflexivity.
    apply delete_subseteq.
  - pose proof (resume_keeps_pending w c (Server.path req)
                  match Server.confirmationId req with
                  | Server.JString s => delete s m
                  | _ => m
                  end) as [Hm _].
    destruct (Server.resume w c (Server.path req) _) as [[resp m'] t].
    simpl in *. subst m'.
    destruct (Server.confirmationId req); try reflexivity.
    apply delete_subseteq.
Qed.

(** every pending id was made with a counter that is not above the
    current one *)
Lemma pending_ids_are_old st :
  Confirmations.reachable st ->
  forall id,
    is_Some (Confirmations.pendingConfirmations st !! id) ->
    exists now counter,
      id = Confirmations.idOf now counter
      /\ (counter <= Confirmations.confirmationIdCounter st)%N.
Proof.
  induction 1 as [ | st st' Hr IH Hstep ].
  - intros id [c Hc]. simpl in Hc. by rewrite lookup_empty in Hc.
  - destruct Hstep as [now c st | w req st]; simpl; intros id Hid.
    + destruct (decide (id = Confirmations.idOf now
                               (Confirmations.confirmationIdCounter st + 1)))
        as [-> | Hne].
      * eexists _, _. split; [ reflexivity | lia ].
      * rewrite lookup_insert_ne in Hid by done.
        destruct (IH id Hid) as (t & k & -> & Hk).
        exists t, k. split; [ done | lia ].
    + apply IH. destruct Hid as [c Hc]. exists c.
      eapply lookup_weaken; [ exact Hc | apply confirm_pending_subseteq ].
Qed.

(** X25.  A new confirmation never takes the id of a pending one: in every
    state the backend reaches by registering confirmations and answering
    requests to [/confirm], the id made for the next confirmation is not
    pending, whatever the clock shows, so that the confirmation is added
    and no pending one is replaced. *)
Theorem confirmation_ids_are_fresh (st : Confirmations.State) (now : N)
    (c : Server.Confirmation) :
  Confirmations.reachable st ->
  Confirmations.pendingConfirmations st
    !! fst (Confirmations.register now c st) = None
  /\ Confirmations.pendingConfirmations st
     ⊆ Confirmations.pendingConfirmations
         (snd (Confirmations.register now c st))
  /\ Confirmations.pendingConfirmations
       (snd (Confirmations.register now c st))
     !! fst (Confirmations.register now c st) = Some c.
Proof.
  intros Hr.
  assert (Hfresh : Confirmations.pendingConfirmations st
                   !! fst (Confirmations.register now c st) = None).
  { simpl. apply eq_None_not_Some. intros Hid.
    destruct (pending_ids_are_old st Hr _ Hid) as (t & k & Heq & Hk).
    apply idOf_inj in Heq. lia. }
  split; [ done | ]. split.
  - simpl. by apply insert_subseteq.
  - simpl. apply lookup_insert_eq.
Qed.

Lemma confirmation_ids_are_fresh_witness :
  Confirmations.pendingConfirmations
    (snd (Confirmations.register 1730000000000 sampleConfirmation
            Confirmations.initial))
    !! fst (Confirmations.register 1730000000000 sampleConfirmation
              (snd (Confirmations.register 1730000000000 sampleConfirmation
                      Confirmations.initial)))
  = None.
Proof.
  apply (confirmation_ids_are_fresh
           (snd (Confirmations.register 1730000000000 sampleConfirmation
                   Confirmations.initial))
           1730000000000 sampleConfirmation).
  eapply Confirmations.reachable_step;
    [ apply Confirmations.reachable_initial
    | apply Confirmations.step_register ].
Defined.
